(** * Siemens & Halske SFM T52a simulator: a shallow embedding and its properties

    The development follows [siemens_halske-t52a.py].  Python integers are
    modelled by [Z], Python lists by [list], character strings by
    [list ascii], and strings that only carry code points (the teleprinter
    unit streams) by lists of code points.  Exceptions are explicit: a
    fallible computation returns [res A], and a method that mutates its
    object returns the result together with the object as it is left
    behind, also when it raises. *)

From Stdlib Require Import Ascii String DecimalString.
From Stdlib Require Import ZArith List Bool Lia Permutation.
Import ListNotations.
Open Scope Z_scope.

(** ** Exceptions and the two small monads *)

Inductive exn : Type :=
| IndexError
| ValueError
| ZeroDivisionError
| TypeError.

Inductive res (A : Type) : Type :=
| Ok (a : A)
| Raise (e : exn).
Arguments Ok {A} a.
Arguments Raise {A} e.

Definition bind {A B : Type} (r : res A) (k : A -> res B) : res B :=
  match r with
  | Ok a => k a
  | Raise e => Raise e
  end.

Notation "x <- e ;; k" := (bind e (fun x => k))
  (at level 61, e at next level, right associativity).

(** [mapM f l] runs [f] on the elements from left to right and stops at the
    first exception, as a list comprehension or [map] does. *)
Fixpoint mapM {A B : Type} (f : A -> res B) (l : list A) : res (list B) :=
  match l with
  | [] => Ok []
  | a :: t => b <- f a ;; bs <- mapM f t ;; Ok (b :: bs)
  end.

(** A method of an object of type [St]: the outcome and the object after
    the call. *)
Definition M (St A : Type) : Type := St -> res A * St.

Definition ret {St A : Type} (a : A) : M St A := fun s => (Ok a, s).

Definition throw {St A : Type} (e : exn) : M St A := fun s => (Raise e, s).

Definition sbind {St A B : Type} (m : M St A) (k : A -> M St B) : M St B :=
  fun s =>
    match m s with
    | (Ok a, s') => k a s'
    | (Raise e, s') => (Raise e, s')
    end.

(** A pure fallible computation that reads the object. *)
Definition reads {St A : Type} (f : St -> res A) : M St A :=
  fun s => (f s, s).

Notation "x <~ e ;; k" := (sbind e (fun x => k))
  (at level 61, e at next level, right associativity).

(** ** The Python primitives the program uses *)

Module Py.

Definition str : Type := list ascii.

Definition lit (s : string) : str := list_ascii_of_string s.

(** [range(n)]. *)
Definition range (n : nat) : list Z := map Z.of_nat (seq 0 n).

(** [l[i]]: a negative index counts from the end, anything outside raises
    [IndexError]. *)
Definition index {A : Type} (l : list A) (i : Z) : res A :=
  let n := Z.of_nat (length l) in
  let j := if i <? 0 then i + n else i in
  if (0 <=? j) && (j <? n)
  then match nth_error l (Z.to_nat j) with
       | Some a => Ok a
       | None => Raise IndexError
       end
  else Raise IndexError.

(** [l[i] = v]. *)
Fixpoint replace_nth {A : Type} (l : list A) (k : nat) (v : A) : list A :=
  match l, k with
  | [], _ => []
  | _ :: t, O => v :: t
  | a :: t, S k' => a :: replace_nth t k' v
  end.

Definition setitem {A : Type} (l : list A) (i : Z) (v : A) : res (list A) :=
  let n := Z.of_nat (length l) in
  let j := if i <? 0 then i + n else i in
  if (0 <=? j) && (j <? n)
  then Ok (replace_nth l (Z.to_nat j) v)
  else Raise IndexError.

(** [l.pop()]: removes and returns the last element. *)
Definition pop {A : Type} (l : list A) : res (A * list A) :=
  match rev l with
  | [] => Raise IndexError
  | a :: t => Ok (a, rev t)
  end.

(** Slices [l[lo:hi]] with step 1: a bound is clamped to the list, a
    negative bound counts from the end, a missing bound is [None]. *)
Definition clamp (n : nat) (i : Z) : nat :=
  if i <? 0 then Z.to_nat (Z.max 0 (i + Z.of_nat n))
  else Nat.min n (Z.to_nat i).

Definition slice {A : Type} (lo hi : option Z) (l : list A) : list A :=
  let n := length l in
  let a := match lo with Some i => clamp n i | None => O end in
  let b := match hi with Some i => clamp n i | None => n end in
  firstn (b - a) (skipn a l).

(** [l[:hi]], [l[lo:]] and [l[lo:hi]]. *)
Definition upto {A : Type} (hi : Z) (l : list A) : list A :=
  slice None (Some hi) l.

Definition from {A : Type} (lo : Z) (l : list A) : list A :=
  slice (Some lo) None l.

Definition between {A : Type} (lo hi : Z) (l : list A) : list A :=
  slice (Some lo) (Some hi) l.

(** [s[::-1]]. *)
Definition reversed {A : Type} (l : list A) : list A := rev l.

(** ['{:0wb}'.format(n)]: binary digits, most significant first, padded
    with zeros to [w] characters, the sign counted in the width. *)
Fixpoint bin_pos (p : positive) : str :=
  match p with
  | xH => ["1"%char]
  | xO q => bin_pos q ++ ["0"%char]
  | xI q => bin_pos q ++ ["1"%char]
  end.

Definition bin_abs (n : Z) : str :=
  match n with
  | Z0 => ["0"%char]
  | Zpos p => bin_pos p
  | Zneg p => bin_pos p
  end.

Definition zfill (w : nat) (s : str) : str :=
  repeat "0"%char (w - length s) ++ s.

Definition format_b (w : nat) (n : Z) : str :=
  if n <? 0 then "-"%char :: zfill (w - 1) (bin_abs n)
  else zfill w (bin_abs n).

(** [str(n)] for an integer. *)
Definition str_of_int (n : Z) : str :=
  list_ascii_of_string (NilZero.string_of_int (Z.to_int n)).

(** [int(s, base)] for [base] 2 or 10 on strings made of a sign, the prefix
    [0b] and digits; white space and underscores, which [int] also accepts,
    occur in no string the program builds. *)
Definition digit_val (c : ascii) : option Z :=
  let n := Z.of_N (N_of_ascii c) in
  if (48 <=? n) && (n <=? 57) then Some (n - 48) else None.

Fixpoint digits_val (base acc : Z) (s : str) : res Z :=
  match s with
  | [] => Ok acc
  | c :: t =>
      match digit_val c with
      | Some d =>
          if d <? base then digits_val base (acc * base + d) t
          else Raise ValueError
      | None => Raise ValueError
      end
  end.

Definition strip_0b (s : str) : str :=
  match s with
  | z :: b :: t =>
      if (z =? "0")%char && ((b =? "b")%char || (b =? "B")%char)
      then t else s
  | _ => s
  end.

Definition unsigned_of_str (base : Z) (s : str) : res Z :=
  match (if base =? 2 then strip_0b s else s) with
  | [] => Raise ValueError
  | body => digits_val base 0 body
  end.

Definition int_of_str (s : str) (base : Z) : res Z :=
  match s with
  | c :: t =>
      if (c =? "-")%char then v <- unsigned_of_str base t ;; Ok (- v)
      else if (c =? "+")%char then unsigned_of_str base t
      else unsigned_of_str base s
  | [] => Raise ValueError
  end.

(** [chr] and [ord] on code points. *)
Definition chr (n : Z) : res Z :=
  if (0 <=? n) && (n <=? 1114111) then Ok n else Raise ValueError.

Definition ord (c : Z) : Z := c.

(** [a % b]. *)
Definition modulo (a b : Z) : res Z :=
  if b =? 0 then Raise ZeroDivisionError else Ok (a mod b).

(** Truth value of an integer in a condition. *)
Definition truthy (n : Z) : bool := negb (n =? 0).

End Py.

Import Py.

(** [for]-loops that thread a state and may raise. *)
Fixpoint foldM {A S : Type} (f : S -> A -> res S) (l : list A) (s : S)
  : res S :=
  match l with
  | [] => Ok s
  | a :: t => s' <- f s a ;; foldM f t s'
  end.

(** ** ASCII/TTY coding conversion data *)

Definition INVC : Z := 255.    (* invalid character mapping *)
Definition FIGS_F : Z := 128.  (* figures required flag *)
Definition ETHR_F : Z := 64.   (* valid in either shift *)
Definition LTRS : Z := 31.     (* letters shift character *)
Definition FIGS : Z := 27.     (* figures shift character *)
Definition MSX5 : Z := 31.     (* mask off 5 LSBs *)
Definition MSX7 : Z := 127.    (* mask off 7 LSBs *)

Definition asc2tty : list Z :=
  [  64; INVC; INVC; INVC; INVC; INVC; INVC;  154; INVC; INVC;
     72; INVC; INVC;   66; INVC; INVC; INVC; INVC; INVC; INVC;
   INVC; INVC; INVC; INVC; INVC; INVC; INVC; INVC; INVC; INVC;
   INVC; INVC;   68; INVC; INVC; INVC;  146; INVC; INVC;  148;
    158;  137; INVC;  145;  134;  152;  135;  151;
    141;  157;  153;  144;  138;  129;  149;  156;  140;  131;  142;
   INVC;  158;  143;  137;  147; INVC;   24;   19;   14;   18;   16;
     22;   11;
      5;   12;   26;   30;    9;    7;    6;    3;   13;   29;   10;
     20;    1;   28;   15;   25;
     23;   21;   17;  158; INVC;  137; INVC; INVC; INVC;   24;   19;
     14;
     18;   16;   22;   11;    5;   12;   26;   30;    9;    7;    6;
      3;   13;   29;   10;   20;
      1;   28;   15;   25;   23;   21;   17;  158; INVC;  137;  154;
   INVC ].

(** The decode tables hold one-character strings, and the two integers
    [FIGS] and [LTRS] at the places of the shift codes. *)
Inductive tty_entry : Type :=
| Chr (c : ascii)
| Num (n : Z).

Definition tty_ltrs2asc : list tty_entry :=
  [ Chr "000"; Chr "T"; Chr "013"; Chr "O"; Chr " "; Chr "H"; Chr "N";
    Chr "M";
    Chr "010"; Chr "L"; Chr "R"; Chr "G"; Chr "I"; Chr "P"; Chr "C";
    Chr "V";
    Chr "E"; Chr "Z"; Chr "D"; Chr "B"; Chr "S"; Chr "Y"; Chr "F";
    Chr "X";
    Chr "A"; Chr "W"; Chr "J"; Num FIGS; Chr "U"; Chr "Q"; Chr "K";
    Num LTRS ]%char.

Definition tty_figs2asc : list tty_entry :=
  [ Chr "000"; Chr "5"; Chr "013"; Chr "9"; Chr " "; Chr "&"; Chr ",";
    Chr ".";
    Chr "010"; Chr ")"; Chr "4"; Chr "&"; Chr "8"; Chr "0"; Chr ":";
    Chr "=";
    Chr "3"; Chr "+"; Chr "$"; Chr "?"; Chr "'"; Chr "6"; Chr "&";
    Chr "/";
    Chr "-"; Chr "2"; Chr "007"; Num FIGS; Chr "7"; Chr "1"; Chr "(";
    Num LTRS ]%char.

(** [''.join(result)] on a list of table entries: an integer entry is a
    [TypeError]. *)
Definition join (result : list tty_entry) : res str :=
  mapM (fun e => match e with
                 | Chr c => Ok c
                 | Num _ => Raise TypeError
                 end) result.

(** The state of a conversion loop: the shift flag [figs] and the list
    [result] built so far. *)
Definition conv (A : Type) : Type := (bool * list A)%type.

(** The initial shift of [ascii2tty]. *)
Definition initial_shift (s : list Z) : res (conv Z) :=
  if 0 <? Z.of_nat (length s) then
    b <- index s 0 ;;
    char <- index asc2tty (Z.land b MSX7) ;;
    if truthy (Z.land char ETHR_F) then Ok (false, [])
    else if truthy (Z.land char FIGS_F) then
      u <- chr FIGS ;; Ok (true, [u])
    else
      u <- chr LTRS ;; Ok (false, [u])
  else Ok (false, []).

(** One turn of the loop of [ascii2tty]. *)
Definition ascii2tty_step (st : conv Z) (b : Z) : res (conv Z) :=
  let '(figs, result) := st in
  char <- index asc2tty (Z.land b MSX7) ;;
  if negb (char =? INVC) then
    st' <- (if truthy (Z.land char ETHR_F) then Ok (figs, result)
            else if truthy (Z.land char FIGS_F) then
              if negb figs then u <- chr FIGS ;; Ok (true, result ++ [u])
              else Ok (figs, result)
            else if figs then u <- chr LTRS ;; Ok (false, result ++ [u])
            else Ok (figs, result)) ;;
    u <- chr (Z.land char MSX5) ;;
    Ok (fst st', snd st' ++ [u])
  else Ok (figs, result).

(** Convert from ASCII to 5-bits TTY code. *)
Definition ascii2tty (s : list Z) : res (list Z) :=
  st0 <- initial_shift s ;;
  st <- foldM ascii2tty_step s st0 ;;
  Ok (snd st).

(** One turn of the loop of [tty2ascii]. *)
Definition tty2ascii_step (st : conv tty_entry) (c : Z)
  : res (conv tty_entry) :=
  let '(figs, result) := st in
  let char := Z.land (ord c) MSX5 in
  if char =? LTRS then Ok (false, result)
  else if char =? FIGS then Ok (true, result)
  else
    e <- (if figs then index tty_figs2asc char
          else index tty_ltrs2asc char) ;;
    Ok (figs, result ++ [e]).

(** Convert from 5-level TTY code to ASCII. *)
Definition tty2ascii (s : list Z) : res str :=
  st <- foldM tty2ascii_step s (false, []) ;;
  join (snd st).

(** ** Wheels *)

Module Wheel.

Record t : Type := mk {
  wheel_data : list Z;
  wheel_size : Z;
  state : Z
}.

Definition init (data : list Z) (initial : Z) : t :=
  {| wheel_data := data;
     wheel_size := Z.of_nat (length data);
     state := initial |}.

Definition advance : M t unit := fun w =>
  match modulo (state w + 1) (wheel_size w) with
  | Ok p => (Ok tt, {| wheel_data := wheel_data w;
                       wheel_size := wheel_size w;
                       state := p |})
  | Raise e => (Raise e, w)
  end.

Definition get_val (w : t) : res Z := index (wheel_data w) (state w).

End Wheel.

Module WheelBank.

Record t : Type := mk { wheels : list Wheel.t }.

Definition init (ws : list Wheel.t) : t := {| wheels := ws |}.

(** [for w in self.wheels: w.advance()]: the wheels before the one that
    raises stay advanced. *)
Fixpoint advance_each (ws : list Wheel.t) : res unit * list Wheel.t :=
  match ws with
  | [] => (Ok tt, [])
  | w :: rest =>
      match Wheel.advance w with
      | (Ok _, w') =>
          let '(r, rest') := advance_each rest in (r, w' :: rest')
      | (Raise e, w') => (Raise e, w' :: rest)
      end
  end.

Definition advance : M t unit := fun b =>
  let '(r, ws) := advance_each (wheels b) in (r, {| wheels := ws |}).

Definition get_val (b : t) : res Z :=
  result <- mapM (fun i => w <- index (wheels b) i ;; Wheel.get_val w)
                 (range 5) ;;
  int_of_str (lit "0b" ++ concat (map str_of_int (reversed result))) 2.

End WheelBank.

(** ** The cipher machine *)

Module SFM_T52a.

Record t : Type := mk {
  X_wheels : WheelBank.t;
  S_wheels : WheelBank.t
}.

Definition default_initial : list Z := [0; 0; 0; 0; 0; 0; 0; 0; 0; 0].

Definition init (X S : list (list Z)) (initial : list Z) : t :=
  {| X_wheels :=
       WheelBank.init (map (fun '(data, i) => Wheel.init data i)
                           (combine X (upto 5 initial)));
     S_wheels :=
       WheelBank.init (map (fun '(data, i) => Wheel.init data i)
                           (combine S (from 5 initial))) |}.

(** A method of one of the two banks, run inside the machine. *)
Definition on_X {A : Type} (m : M WheelBank.t A) : M t A := fun e =>
  let '(r, b) := m (X_wheels e) in
  (r, {| X_wheels := b; S_wheels := S_wheels e |}).

Definition on_S {A : Type} (m : M WheelBank.t A) : M t A := fun e =>
  let '(r, b) := m (S_wheels e) in
  (r, {| X_wheels := X_wheels e; S_wheels := b |}).

Definition X_val : M t Z := on_X (reads WheelBank.get_val).
Definition S_val : M t Z := on_S (reads WheelBank.get_val).

(** Advances the wheels: all wheels advance every time. *)
Definition advance : M t unit :=
  _ <~ on_X WheelBank.advance ;;
  on_S WheelBank.advance.

(** The five swap operations, as the string slicing of the source. *)
Definition swap4 (result : str) : str :=
  from 4 result ++ between 1 4 result ++ upto 1 result.

Definition swap3 (result : str) : str :=
  upto 3 result ++ reversed (between 3 5 result).

Definition swap2 (result : str) : str :=
  upto 2 result ++ reversed (between 2 4 result) ++ from 4 result.

Definition swap1 (result : str) : str :=
  upto 1 result ++ reversed (between 1 3 result) ++ from 3 result.

Definition swap0 (result : str) : str :=
  reversed (upto 2 result) ++ from 2 result.

Definition swap_if (cond : Z) (swap : str -> str) (result : str) : str :=
  if truthy cond then swap result else result.

(** Encrypt a single character. *)
Definition encrypt_char (c : Z) : M t Z :=
  x <~ X_val ;;
  let result := format_b 5 (Z.lxor c x) in
  s <~ S_val ;;
  let result := swap_if (Z.land (Z.shiftr s 4) 1) swap4 result in
  s <~ S_val ;;
  let result := swap_if (Z.land (Z.shiftr s 3) 1) swap3 result in
  s <~ S_val ;;
  let result := swap_if (Z.land (Z.shiftr s 2) 1) swap2 result in
  s <~ S_val ;;
  let result := swap_if (Z.land (Z.shiftr s 1) 1) swap1 result in
  s <~ S_val ;;
  let result := swap_if (Z.land s 1) swap0 result in
  _ <~ advance ;;
  reads (fun _ => int_of_str result 2).

(** Decrypt a single character. *)
Definition decrypt_char (c : Z) : M t Z :=
  let result := format_b 5 c in
  s <~ S_val ;;
  let result := swap_if (Z.land s 1) swap0 result in
  s <~ S_val ;;
  let result := swap_if (Z.land (Z.shiftr s 1) 1) swap1 result in
  s <~ S_val ;;
  let result := swap_if (Z.land (Z.shiftr s 2) 1) swap2 result in
  s <~ S_val ;;
  let result := swap_if (Z.land (Z.shiftr s 3) 1) swap3 result in
  s <~ S_val ;;
  let result := swap_if (Z.land (Z.shiftr s 4) 1) swap4 result in
  v <~ reads (fun _ => int_of_str result 2) ;;
  x <~ X_val ;;
  let result := Z.lxor v x in
  _ <~ advance ;;
  ret result.

(** Encrypt and decrypt a message string, one unit per character. *)
Fixpoint encrypt (m : list Z) : M t (list Z) :=
  match m with
  | [] => ret []
  | c :: rest =>
      v <~ encrypt_char (ord c) ;;
      u <~ reads (fun _ => chr v) ;;
      us <~ encrypt rest ;;
      ret (u :: us)
  end.

Fixpoint decrypt (m : list Z) : M t (list Z) :=
  match m with
  | [] => ret []
  | c :: rest =>
      v <~ decrypt_char (ord c) ;;
      u <~ reads (fun _ => chr v) ;;
      us <~ decrypt rest ;;
      ret (u :: us)
  end.

End SFM_T52a.

(** ** Key generation *)

(** The random source [randgen] of one run: what the [k]-th call of
    [shuffle] makes of the list it is given, and what [getrandbits]
    returns. *)
Record RandomSource : Type := {
  shuffle : nat -> list Z -> list Z;
  getrandbits : Z -> Z
}.

(** What [random.SystemRandom] guarantees: [shuffle] permutes the list and
    [getrandbits k] is a non-negative integer below [2 ^ k]. *)
Definition lawful (rs : RandomSource) : Prop :=
  (forall k l, Permutation l (shuffle rs k l)) /\
  (forall k, 0 <= k -> 0 <= getrandbits rs k < 2 ^ k).

(** The arguments of [write_keyfile]. *)
Record KeyMaterial : Type := {
  X_sizes : list Z;
  S_sizes : list Z;
  X_wheels : list (list Z);
  S_wheels : list (list Z);
  indicator : list Z
}.

Definition Wheel_Size : list Z := [73; 71; 69; 67; 65; 64; 61; 59; 53; 47].

(** One turn of the loop that deals the wheel sizes. *)
Definition deal_step (st : list Z * list Z * list Z) (i : Z)
  : res (list Z * list Z * list Z) :=
  let '(sizes, Xs, Ss) := st in
  p <- pop sizes ;;
  q <- pop (snd p) ;;
  Ok (snd q, Xs ++ [fst p], Ss ++ [fst q]).

(** One turn of the loops that cut the wheel patterns and the indicators
    out of the random buffer; [off] is 0 for the X wheels and 5 for the
    S wheels. *)
Definition cut_step (sizes : list Z) (off : Z)
  (st : str * list (list Z) * list Z) (i : Z)
  : res (str * list (list Z) * list Z) :=
  let '(buf, wheels, ind) := st in
  n <- index sizes i ;;
  bits <- mapM (fun c => int_of_str [c] 10) (upto n buf) ;;
  wheels <- setitem wheels i bits ;;
  n <- index sizes i ;;
  let buf := from n buf in
  d <- int_of_str (upto 7 buf) 2 ;;
  n <- index sizes i ;;
  r <- modulo d n ;;
  ind <- setitem ind (i + off) r ;;
  Ok (from 7 buf, wheels, ind).

Definition keygen (rs : RandomSource) : res KeyMaterial :=
  let sizes := shuffle rs 0%nat Wheel_Size in
  let sizes := shuffle rs 1%nat sizes in
  let sizes := shuffle rs 2%nat sizes in
  dealt <- foldM deal_step (range 5) (sizes, [], []) ;;
  let '(_, Xs, Ss) := dealt in
  let keygen_randombuf := format_b 700 (getrandbits rs 700) in
  let Xw : list (list Z) := [[]; []; []; []; []] in
  let Sw : list (list Z) := [[]; []; []; []; []] in
  let ind := [0; 0; 0; 0; 0; 0; 0; 0; 0; 0] in
  st <- foldM (cut_step Xs 0) (range 5) (keygen_randombuf, Xw, ind) ;;
  let '(buf, Xw, ind) := st in
  st <- foldM (cut_step Ss 5) (range 5) (buf, Sw, ind) ;;
  let '(_, Sw, ind) := st in
  Ok {| X_sizes := Xs; S_sizes := Ss;
        X_wheels := Xw; S_wheels := Sw; indicator := ind |}.

(** ** Vocabulary of the properties *)

(** A pattern entry that is a bit, a wheel whose length is that of its
    pattern and whose position is inside it, a bank of five such wheels,
    a machine of two such banks. *)
Definition is_bit (b : Z) : bool := (b =? 0) || (b =? 1).

Definition position_ok (w : Wheel.t) : bool :=
  (0 <=? Wheel.state w) && (Wheel.state w <? Wheel.wheel_size w).

Definition wheel_ok (w : Wheel.t) : bool :=
  (Wheel.wheel_size w =? Z.of_nat (length (Wheel.wheel_data w)))
  && forallb is_bit (Wheel.wheel_data w)
  && position_ok w.

Definition bank_ok (b : WheelBank.t) : bool :=
  (length (WheelBank.wheels b) =? 5)%nat
  && forallb wheel_ok (WheelBank.wheels b).

Definition engine_ok (e : SFM_T52a.t) : bool :=
  bank_ok (SFM_T52a.X_wheels e) && bank_ok (SFM_T52a.S_wheels e).

(** A 5-bit unit. *)
Definition is_unit (c : Z) : bool := (0 <=? c) && (c <=? 31).

(** Key material as the constructor takes it: five patterns of bits for
    each bank and ten positions, each inside its pattern. *)
Definition pattern_ok (p : list Z * Z) : bool :=
  forallb is_bit (fst p)
  && (0 <=? snd p) && (snd p <? Z.of_nat (length (fst p))).

Definition key_ok (X S : list (list Z)) (initial : list Z) : bool :=
  (length X =? 5)%nat && (length S =? 5)%nat
  && (length initial =? 10)%nat
  && forallb pattern_ok (combine (X ++ S) initial).

(** The wheel, bank and machine one step later. *)
Definition stepped (w : Wheel.t) : Wheel.t :=
  {| Wheel.wheel_data := Wheel.wheel_data w;
     Wheel.wheel_size := Wheel.wheel_size w;
     Wheel.state := (Wheel.state w + 1) mod Wheel.wheel_size w |}.

Definition bank_stepped (b : WheelBank.t) : WheelBank.t :=
  {| WheelBank.wheels := map stepped (WheelBank.wheels b) |}.

Definition engine_stepped (e : SFM_T52a.t) : SFM_T52a.t :=
  {| SFM_T52a.X_wheels := bank_stepped (SFM_T52a.X_wheels e);
     SFM_T52a.S_wheels := bank_stepped (SFM_T52a.S_wheels e) |}.

(** A method called [n] times in a row. *)
Fixpoint times {St : Type} (n : nat) (m : M St unit) : M St unit :=
  match n with
  | O => ret tt
  | S k => _ <~ m ;; times k m
  end.

(** The least common multiple of the wheel lengths of a list of wheels. *)
Definition lcm_sizes (ws : list Wheel.t) : Z :=
  fold_right Z.lcm 1 (map Wheel.wheel_size ws).

(** The swaps of one unit as [encrypt_char] and [decrypt_char] chain them,
    for the value [s] of the S bank. *)
Definition swaps_enc (s : Z) (result : str) : str :=
  SFM_T52a.swap_if (Z.land s 1) SFM_T52a.swap0
    (SFM_T52a.swap_if (Z.land (Z.shiftr s 1) 1) SFM_T52a.swap1
      (SFM_T52a.swap_if (Z.land (Z.shiftr s 2) 1) SFM_T52a.swap2
        (SFM_T52a.swap_if (Z.land (Z.shiftr s 3) 1) SFM_T52a.swap3
          (SFM_T52a.swap_if (Z.land (Z.shiftr s 4) 1) SFM_T52a.swap4
             result)))).

Definition swaps_dec (s : Z) (result : str) : str :=
  SFM_T52a.swap_if (Z.land (Z.shiftr s 4) 1) SFM_T52a.swap4
    (SFM_T52a.swap_if (Z.land (Z.shiftr s 3) 1) SFM_T52a.swap3
      (SFM_T52a.swap_if (Z.land (Z.shiftr s 2) 1) SFM_T52a.swap2
        (SFM_T52a.swap_if (Z.land (Z.shiftr s 1) 1) SFM_T52a.swap1
          (SFM_T52a.swap_if (Z.land s 1) SFM_T52a.swap0 result)))).

(** A string of binary digits. *)
Definition is_bin (c : ascii) : bool := (c =? "0")%char || (c =? "1")%char.

(** [advanced w w']: [w'] is [w] one position further, with the same
    pattern and the same length. *)
Definition advanced (w w' : Wheel.t) : Prop :=
  Wheel.wheel_data w' = Wheel.wheel_data w
  /\ Wheel.wheel_size w' = Wheel.wheel_size w
  /\ Wheel.state w' = (Wheel.state w + 1) mod Wheel.wheel_size w.

(** Small key material to run the machine on. *)
Definition demo_X : list (list Z) :=
  [[1; 0; 1]; [0; 1]; [1; 1; 0; 0]; [0]; [1; 0]].

Definition demo_S : list (list Z) :=
  [[0; 1; 1]; [1; 0]; [0; 1; 0; 1]; [1]; [0; 0; 1]].

Definition demo_initial : list Z := [0; 1; 2; 0; 1; 2; 0; 3; 0; 1].

Definition demo : SFM_T52a.t := SFM_T52a.init demo_X demo_S demo_initial.

(** A machine whose swap wheels are all zero. *)
Definition quiet_S : list (list Z) := [[0]; [0; 0]; [0]; [0; 0; 0]; [0]].

Definition quiet : SFM_T52a.t :=
  SFM_T52a.init demo_X quiet_S SFM_T52a.default_initial.

(** The wheel [n] positions later. *)
Definition shifted (n : Z) (w : Wheel.t) : Wheel.t :=
  {| Wheel.wheel_data := Wheel.wheel_data w;
     Wheel.wheel_size := Wheel.wheel_size w;
     Wheel.state := (Wheel.state w + n) mod Wheel.wheel_size w |}.

(** A string of at least five binary digits. *)
Definition wide (s : str) : Prop :=
  forallb is_bin s = true /\ (5 <= length s)%nat.

(** ** Vocabulary of the codec properties *)

(** The entry of [asc2tty] a byte is looked up at. *)
Definition entry (b : Z) : Z := nth (Z.to_nat (Z.land b MSX7)) asc2tty INVC.

(** A byte absent from the mapping. *)
Definition absent (b : Z) : bool := entry b =? INVC.

Definition upper (b : Z) : Z :=
  if (97 <=? b) && (b <=? 122) then b - 32 else b.

Definition byte_char (b : Z) : ascii := ascii_of_N (Z.to_N b).

(** The bytes that come back from the codec as themselves, letters
    upper-cased: the letters, the digits, and of the punctuation of the
    table [$ ' ( ) + , - . / : = ?]. *)
Definition faithful (b : Z) : bool :=
  ((65 <=? b) && (b <=? 90))
  || ((97 <=? b) && (b <=? 122))
  || ((48 <=? b) && (b <=? 57))
  || existsb (Z.eqb b) [36; 39; 40; 41; 43; 44; 45; 46; 47; 58; 61; 63].

(** What one byte makes [ascii2tty] emit, and the shift flag after it. *)
Definition emit (figs : bool) (b : Z) : bool * list Z :=
  let char := entry b in
  if char =? INVC then (figs, [])
  else if truthy (Z.land char ETHR_F) then (figs, [Z.land char MSX5])
  else if truthy (Z.land char FIGS_F) then
    (true, (if figs then [] else [FIGS]) ++ [Z.land char MSX5])
  else (false, (if figs then [LTRS] else []) ++ [Z.land char MSX5]).

Fixpoint units (figs : bool) (s : list Z) : list Z :=
  match s with
  | [] => []
  | b :: t => snd (emit figs b) ++ units (fst (emit figs b)) t
  end.

(** The shift [ascii2tty] starts with, and the unit it emits for it. *)
Definition first_shift (s : list Z) : bool * list Z :=
  match s with
  | [] => (false, [])
  | b :: _ =>
      if truthy (Z.land (entry b) ETHR_F) then (false, [])
      else if truthy (Z.land (entry b) FIGS_F) then (true, [FIGS])
      else (false, [LTRS])
  end.

(** What one unit makes [tty2ascii] append, and the shift flag after it. *)
Definition decode1 (figs : bool) (c : Z) : bool * list tty_entry :=
  let char := Z.land c MSX5 in
  if char =? LTRS then (false, [])
  else if char =? FIGS then (true, [])
  else (figs,
        [nth (Z.to_nat char)
             (if figs then tty_figs2asc else tty_ltrs2asc) (Num 0)]).

Fixpoint decoded (figs : bool) (us : list Z) : list tty_entry :=
  match us with
  | [] => []
  | c :: t => snd (decode1 figs c) ++ decoded (fst (decode1 figs c)) t
  end.

Fixpoint shift_after (figs : bool) (us : list Z) : bool :=
  match us with
  | [] => figs
  | c :: t => shift_after (fst (decode1 figs c)) t
  end.

(** One faithful byte, encoded from the shift [figs] and decoded from the
    same shift, comes back upper-cased, and coder and decoder agree on the
    shift afterwards. *)
Definition byte_roundtrips (figs : bool) (b : Z) : bool :=
  match decoded figs (snd (emit figs b)) with
  | [Chr c] =>
      (c =? byte_char (upper b))%char
      && Bool.eqb (shift_after figs (snd (emit figs b))) (fst (emit figs b))
      && negb (absent b)
  | _ => false
  end.

(** ** Vocabulary of the key generation properties *)

(** [int(c)] of a binary digit. *)
Definition bitval (c : ascii) : Z := if (c =? "1")%char then 1 else 0.

Definition zsum (l : list Z) : Z := fold_right Z.add 0 l.

(** A wheel pattern cut for a wheel of length [n]: [n] bits. *)
Definition pattern_of (n : Z) (w : list Z) : Prop :=
  Z.of_nat (length w) = n /\ forallb is_bit w = true.

(** An indicator entry for a wheel of length [n]: a 7-bit draw reduced
    modulo [n]. *)
Definition indicator_of (n p : Z) : Prop :=
  0 <= p < n /\ exists d, 0 <= d < 128 /\ p = d mod n.

(** A random source to run key generation on. *)
Definition demo_rs : RandomSource :=
  {| shuffle := fun _ l => rev l;
     getrandbits := fun k => (2 ^ k - 1) / 3 |}.

(** ** The encrypt and decrypt commands *)

(** What the [encrypt] command computes from the key material of the key
    file and the bytes of the input file: the string it writes to the
    output file. *)
Definition main_encrypt (X S : list (list Z)) (indicator : list Z)
  (input_ascii : list Z) : res (list Z) :=
  input_baudot <- ascii2tty input_ascii ;;
  fst (SFM_T52a.encrypt input_baudot (SFM_T52a.init X S indicator)).

(** What the [decrypt] command computes from the key material and the
    bytes of the input file, read one by one. *)
Definition main_decrypt (X S : list (list Z)) (indicator : list Z)
  (input_ciphertext : list Z) : res str :=
  plaintext_stream <-
    fst (SFM_T52a.decrypt input_ciphertext (SFM_T52a.init X S indicator)) ;;
  tty2ascii plaintext_stream.

(** ** Vocabulary of the further properties *)

(** A byte of a file. *)
Definition is_byte (c : Z) : bool := (0 <=? c) && (c <=? 255).

(** The character a byte comes back as from the codec: the entry of the
    decode table of its shift at its unit; nothing for a byte absent from
    the mapping. *)
Definition table_char (b : Z) : str :=
  let char := entry b in
  if char =? INVC then []
  else
    match nth (Z.to_nat (Z.land char MSX5))
              (if truthy (Z.land char FIGS_F) then tty_figs2asc
               else tty_ltrs2asc) (Num 0)
    with
    | Chr c => [c]
    | Num _ => []
    end.

(** One byte, encoded from the shift [figs] and decoded from the same
    shift, gives its [table_char], and coder and decoder agree on the
    shift afterwards. *)
Definition byte_decodes (figs : bool) (b : Z) : bool :=
  Bool.eqb (shift_after figs (snd (emit figs b))) (fst (emit figs b))
  && match decoded figs (snd (emit figs b)), table_char b with
     | [], [] => true
     | [Chr c], [c'] => (c =? c')%char
     | _, _ => false
     end.

(** A unit that is one of the two shift codes. *)
Definition is_shift (u : Z) : bool := (u =? LTRS) || (u =? FIGS).

(** A position from which [wheel_data[state]] can be read: inside the
    pattern, or negative and no further from the end than its length. *)
Definition readable (w : Wheel.t) : bool :=
  (- Z.of_nat (length (Wheel.wheel_data w)) <=? Wheel.state w)
  && (Wheel.state w <? Z.of_nat (length (Wheel.wheel_data w))).

(** Banks and machines to show failures on: a bank of four wheels, a
    wheel beyond its pattern, a wheel with an entry that is no bit, a
    wheel without teeth. *)
Definition short_bank : WheelBank.t :=
  WheelBank.init [Wheel.init [0; 1] 0; Wheel.init [1] 0;
                  Wheel.init [1; 1] 1; Wheel.init [0] 0].

Definition overrun : SFM_T52a.t :=
  SFM_T52a.init demo_X demo_S [0; 1; 4; 0; 1; 2; 0; 3; 0; 1].

Definition toothless : list Wheel.t :=
  [Wheel.init [0; 1] 1; Wheel.init [1; 1; 0] 0; Wheel.init [] 0;
   Wheel.init [1] 0].

(** * Properties *)

(** ** Binary strings: formatting and parsing *)

Lemma bind_Ok {A B : Type} (a : A) (k : A -> res B) :
  bind (Ok a) k = k a.
Proof. reflexivity. Qed.

Lemma digits_val_app (base acc : Z) (s1 s2 : str) :
  digits_val base acc (s1 ++ s2)
  = (v <- digits_val base acc s1 ;; digits_val base v s2).
Proof.
  revert acc; induction s1 as [|c s1 IH]; intros acc; simpl; [reflexivity|].
  destruct (digit_val c) as [d|]; [|reflexivity].
  destruct (d <? base); [apply IH | reflexivity].
Qed.

Lemma digits_val_bin_pos (p : positive) (acc : Z) :
  digits_val 2 acc (bin_pos p)
  = Ok (acc * 2 ^ Z.of_nat (length (bin_pos p)) + Zpos p).
Proof.
  revert acc; induction p as [q IH|q IH|]; intros acc; simpl bin_pos.
  - rewrite digits_val_app, IH, bind_Ok, length_app. simpl length.
    rewrite Nat2Z.inj_add, Z.pow_add_r by lia.
    change (digits_val 2 ?v ["1"%char]) with (Ok (v * 2 + 1)).
    f_equal. change (2 ^ Z.of_nat 1) with 2. lia.
  - rewrite digits_val_app, IH, bind_Ok, length_app. simpl length.
    rewrite Nat2Z.inj_add, Z.pow_add_r by lia.
    change (digits_val 2 ?v ["0"%char]) with (Ok (v * 2 + 0)).
    f_equal. change (2 ^ Z.of_nat 1) with 2. lia.
  - change (digits_val 2 acc ["1"%char]) with (Ok (acc * 2 + 1)).
    f_equal.
Qed.

Lemma digits_val_zeros (k : nat) (s : str) :
  digits_val 2 0 (repeat "0"%char k ++ s) = digits_val 2 0 s.
Proof. induction k as [|k IH]; [reflexivity | exact IH]. Qed.

Lemma is_bin_cases (c : ascii) :
  is_bin c = true -> c = "0"%char \/ c = "1"%char.
Proof.
  unfold is_bin; intros H; apply orb_true_iff in H.
  destruct H as [H|H]; apply Ascii.eqb_eq in H; auto.
Qed.

Lemma strip_0b_bin (s : str) : forallb is_bin s = true -> strip_0b s = s.
Proof.
  destruct s as [|z [|b t]]; try reflexivity.
  simpl; intros H.
  apply andb_true_iff in H; destruct H as [_ H].
  apply andb_true_iff in H; destruct H as [H _].
  destruct (is_bin_cases b H); subst b;
    destruct (z =? "0")%char; reflexivity.
Qed.

Lemma int_of_str_bin (s : str) :
  forallb is_bin s = true -> s <> [] ->
  int_of_str s 2 = digits_val 2 0 s.
Proof.
  intros Hb Hne. destruct s as [|c t]; [congruence|].
  assert (Hc : is_bin c = true)
    by (simpl in Hb; apply andb_true_iff in Hb; tauto).
  unfold int_of_str.
  replace (c =? "-")%char with false
    by (destruct (is_bin_cases c Hc); subst c; reflexivity).
  replace (c =? "+")%char with false
    by (destruct (is_bin_cases c Hc); subst c; reflexivity).
  unfold unsigned_of_str. rewrite Z.eqb_refl, strip_0b_bin by exact Hb.
  reflexivity.
Qed.

Lemma bin_pos_bin (p : positive) : forallb is_bin (bin_pos p) = true.
Proof.
  induction p; simpl; rewrite ?forallb_app, ?IHp; reflexivity.
Qed.

Lemma bin_abs_bin (n : Z) : forallb is_bin (bin_abs n) = true.
Proof. destruct n; simpl; auto using bin_pos_bin. Qed.

Lemma bin_pos_nonempty (p : positive) : bin_pos p <> [].
Proof.
  destruct p; simpl; try congruence;
    intros H; apply app_eq_nil in H; destruct H; congruence.
Qed.

Lemma zfill_bin (w : nat) (s : str) :
  forallb is_bin s = true -> forallb is_bin (zfill w s) = true.
Proof.
  intros H; unfold zfill. rewrite forallb_app, H, andb_true_r.
  induction (w - length s)%nat; simpl; auto.
Qed.

Lemma zfill_length (w : nat) (s : str) :
  length (zfill w s) = Nat.max w (length s).
Proof. unfold zfill. rewrite length_app, repeat_length. lia. Qed.

Lemma zfill_nonempty (w : nat) (s : str) : s <> [] -> zfill w s <> [].
Proof.
  intros Hs H. apply (f_equal (@length ascii)) in H.
  rewrite zfill_length in H. destruct s; [congruence | simpl in H; lia].
Qed.

Lemma digits_val_zfill (w : nat) (s : str) :
  digits_val 2 0 (zfill w s) = digits_val 2 0 s.
Proof. apply digits_val_zeros. Qed.

(** Parsing what [format_b] printed gives the number back, for every
    integer and every width. *)
Lemma int_of_str_format_b (w : nat) (n : Z) :
  int_of_str (format_b w n) 2 = Ok n.
Proof.
  destruct n as [|p|p].
  - change (format_b w 0) with (zfill w (bin_abs 0)).
    rewrite int_of_str_bin;
      [ | apply zfill_bin, bin_abs_bin | apply zfill_nonempty; discriminate ].
    rewrite digits_val_zfill. reflexivity.
  - change (format_b w (Z.pos p)) with (zfill w (bin_abs (Z.pos p))).
    rewrite int_of_str_bin;
      [ | apply zfill_bin, bin_abs_bin
        | apply zfill_nonempty, bin_pos_nonempty ].
    rewrite digits_val_zfill. simpl bin_abs. rewrite digits_val_bin_pos.
    f_equal.
  - change (format_b w (Z.neg p))
      with ("-"%char :: zfill (w - 1) (bin_abs (Z.neg p))).
    unfold int_of_str. change ("-" =? "-")%char with true. cbv iota.
    unfold unsigned_of_str. rewrite Z.eqb_refl.
    rewrite strip_0b_bin by (apply zfill_bin, bin_abs_bin).
    pose proof (zfill_nonempty (w - 1) (bin_abs (Z.neg p))
                  (bin_pos_nonempty p)) as Hne.
    destruct (zfill (w - 1) (bin_abs (Z.neg p))) as [|c t] eqn:E;
      [congruence|].
    rewrite <- E, digits_val_zfill. simpl bin_abs.
    rewrite digits_val_bin_pos. reflexivity.
Qed.

Lemma digits_val_bin_nonneg (s : str) (acc : Z) :
  forallb is_bin s = true -> 0 <= acc ->
  exists v, digits_val 2 acc s = Ok v /\ 0 <= v.
Proof.
  revert acc; induction s as [|c t IH]; intros acc Hb Hacc.
  - exists acc; auto.
  - simpl in Hb. apply andb_true_iff in Hb; destruct Hb as [Hc Ht].
    destruct (is_bin_cases c Hc); subst c; simpl;
      apply IH; auto; lia.
Qed.

(** ** Wheels and banks *)

Lemma is_bit_cases (b : Z) : is_bit b = true -> b = 0 \/ b = 1.
Proof. unfold is_bit; intros H; apply orb_true_iff in H; lia. Qed.

Lemma position_ok_inv (w : Wheel.t) :
  position_ok w = true -> 0 <= Wheel.state w < Wheel.wheel_size w.
Proof. unfold position_ok; intros H; apply andb_true_iff in H; lia. Qed.

Lemma wheel_ok_inv (w : Wheel.t) :
  wheel_ok w = true ->
  Wheel.wheel_size w = Z.of_nat (length (Wheel.wheel_data w))
  /\ forallb is_bit (Wheel.wheel_data w) = true
  /\ position_ok w = true.
Proof.
  unfold wheel_ok; intros H.
  apply andb_true_iff in H; destruct H as [H H3].
  apply andb_true_iff in H; destruct H as [H1 H2].
  repeat split; auto; lia.
Qed.

Lemma wheel_ok_position (w : Wheel.t) :
  wheel_ok w = true -> position_ok w = true.
Proof. intros H; apply wheel_ok_inv in H; tauto. Qed.

Lemma index_in_range {A : Type} (l : list A) (i : Z) :
  0 <= i < Z.of_nat (length l) ->
  exists a, index l i = Ok a /\ nth_error l (Z.to_nat i) = Some a.
Proof.
  intros Hi. unfold index.
  replace (i <? 0) with false by lia.
  replace ((0 <=? i) && (i <? Z.of_nat (length l))) with true by lia.
  destruct (nth_error l (Z.to_nat i)) as [a|] eqn:E.
  - exists a; auto.
  - apply nth_error_None in E; lia.
Qed.

Lemma Wheel_get_val_ok (w : Wheel.t) :
  wheel_ok w = true ->
  exists b,
    Wheel.get_val w = Ok b /\ is_bit b = true
    /\ nth_error (Wheel.wheel_data w) (Z.to_nat (Wheel.state w)) = Some b.
Proof.
  intros H; apply wheel_ok_inv in H; destruct H as (Hs & Hb & Hp).
  apply position_ok_inv in Hp.
  destruct (index_in_range (Wheel.wheel_data w) (Wheel.state w))
    as (b & Hi & Hn); [lia|].
  exists b; split; [exact Hi|]. split; [|exact Hn].
  rewrite forallb_forall in Hb. apply Hb.
  eapply nth_error_In; eauto.
Qed.

Lemma Wheel_advance_ok (w : Wheel.t) :
  position_ok w = true -> Wheel.advance w = (Ok tt, stepped w).
Proof.
  intros H; apply position_ok_inv in H.
  unfold Wheel.advance, modulo.
  replace (Wheel.wheel_size w =? 0) with false by lia. reflexivity.
Qed.

Lemma stepped_position_ok (w : Wheel.t) :
  position_ok w = true -> position_ok (stepped w) = true.
Proof.
  intros H; apply position_ok_inv in H. unfold position_ok; simpl.
  pose proof (Z.mod_pos_bound (Wheel.state w + 1) (Wheel.wheel_size w)).
  lia.
Qed.

Lemma stepped_ok (w : Wheel.t) : wheel_ok w = true -> wheel_ok (stepped w) = true.
Proof.
  intros H; apply wheel_ok_inv in H; destruct H as (Hs & Hb & Hp).
  unfold wheel_ok. rewrite stepped_position_ok by exact Hp.
  simpl. rewrite Hb. lia.
Qed.

Lemma advance_each_ok (ws : list Wheel.t) :
  forallb position_ok ws = true ->
  WheelBank.advance_each ws = (Ok tt, map stepped ws).
Proof.
  induction ws as [|w ws IH]; intros H; [reflexivity|].
  simpl in H; apply andb_true_iff in H; destruct H as [Hw Hws].
  simpl. rewrite Wheel_advance_ok, IH by assumption. reflexivity.
Qed.

Lemma WheelBank_advance_ok (b : WheelBank.t) :
  forallb position_ok (WheelBank.wheels b) = true ->
  WheelBank.advance b = (Ok tt, bank_stepped b).
Proof.
  intros H. unfold WheelBank.advance. rewrite advance_each_ok by exact H.
  reflexivity.
Qed.

Lemma forallb_map_stepped (P : Wheel.t -> bool) (ws : list Wheel.t) :
  (forall w, P w = true -> P (stepped w) = true) ->
  forallb P ws = true -> forallb P (map stepped ws) = true.
Proof.
  intros HP. induction ws as [|w ws IH]; simpl; [auto|].
  intros H; apply andb_true_iff in H; destruct H as [Hw Hws].
  rewrite HP, IH; auto.
Qed.

Lemma forallb_wheel_ok_position (ws : list Wheel.t) :
  forallb wheel_ok ws = true -> forallb position_ok ws = true.
Proof.
  rewrite !forallb_forall. auto using wheel_ok_position.
Qed.

Lemma bank_ok_inv (b : WheelBank.t) :
  bank_ok b = true ->
  length (WheelBank.wheels b) = 5%nat
  /\ forallb wheel_ok (WheelBank.wheels b) = true.
Proof.
  unfold bank_ok; intros H; apply andb_true_iff in H.
  destruct H as [H1 H2]. apply Nat.eqb_eq in H1. auto.
Qed.

Lemma bank_stepped_ok (b : WheelBank.t) :
  bank_ok b = true -> bank_ok (bank_stepped b) = true.
Proof.
  intros H; apply bank_ok_inv in H; destruct H as [Hl Hw].
  unfold bank_ok, bank_stepped; simpl.
  rewrite length_map, Hl, forallb_map_stepped; auto using stepped_ok.
Qed.

Lemma engine_ok_inv (e : SFM_T52a.t) :
  engine_ok e = true ->
  bank_ok (SFM_T52a.X_wheels e) = true
  /\ bank_ok (SFM_T52a.S_wheels e) = true.
Proof. unfold engine_ok; intros H; apply andb_true_iff in H; exact H. Qed.

Lemma engine_stepped_ok (e : SFM_T52a.t) :
  engine_ok e = true -> engine_ok (engine_stepped e) = true.
Proof.
  intros H; apply engine_ok_inv in H; destruct H as [HX HS].
  unfold engine_ok, engine_stepped; simpl.
  rewrite !bank_stepped_ok; auto.
Qed.

(** The value of five bits read as [get_val] reads them. *)
Lemma five_bits_value (b0 b1 b2 b3 b4 : Z) :
  is_bit b0 = true -> is_bit b1 = true -> is_bit b2 = true ->
  is_bit b3 = true -> is_bit b4 = true ->
  let v := b0 + 2 * b1 + 4 * b2 + 8 * b3 + 16 * b4 in
  int_of_str
    (lit "0b" ++ concat (map str_of_int (reversed [b0; b1; b2; b3; b4]))) 2
  = Ok v
  /\ is_unit v = true
  /\ Z.b2z (Z.testbit v 0) = b0 /\ Z.b2z (Z.testbit v 1) = b1
  /\ Z.b2z (Z.testbit v 2) = b2 /\ Z.b2z (Z.testbit v 3) = b3
  /\ Z.b2z (Z.testbit v 4) = b4.
Proof.
  intros H0 H1 H2 H3 H4.
  destruct (is_bit_cases _ H0), (is_bit_cases _ H1), (is_bit_cases _ H2),
    (is_bit_cases _ H3), (is_bit_cases _ H4); subst;
    vm_compute; repeat split; reflexivity.
Qed.

Lemma WheelBank_get_val_ok (b : WheelBank.t) :
  bank_ok b = true ->
  exists w0 w1 w2 w3 w4 b0 b1 b2 b3 b4,
    WheelBank.wheels b = [w0; w1; w2; w3; w4]
    /\ Wheel.get_val w0 = Ok b0 /\ Wheel.get_val w1 = Ok b1
    /\ Wheel.get_val w2 = Ok b2 /\ Wheel.get_val w3 = Ok b3
    /\ Wheel.get_val w4 = Ok b4
    /\ is_bit b0 = true /\ is_bit b1 = true /\ is_bit b2 = true
    /\ is_bit b3 = true /\ is_bit b4 = true
    /\ Forall2 (fun w b =>
                  nth_error (Wheel.wheel_data w) (Z.to_nat (Wheel.state w))
                  = Some b)
               [w0; w1; w2; w3; w4] [b0; b1; b2; b3; b4]
    /\ WheelBank.get_val b
       = Ok (b0 + 2 * b1 + 4 * b2 + 8 * b3 + 16 * b4).
Proof.
  intros H; apply bank_ok_inv in H; destruct H as [Hl Hw].
  destruct b as [ws]; simpl in *.
  destruct ws as [|w0 [|w1 [|w2 [|w3 [|w4 [|w5 ws]]]]]]; try discriminate.
  simpl in Hw.
  repeat match type of Hw with
         | (_ && _) = true =>
             apply andb_true_iff in Hw;
             let Hk := fresh "Hk" in destruct Hw as [Hk Hw]
         end.
  destruct (Wheel_get_val_ok w0 Hk) as (b0 & E0 & B0 & N0).
  destruct (Wheel_get_val_ok w1 Hk0) as (b1 & E1 & B1 & N1).
  destruct (Wheel_get_val_ok w2 Hk1) as (b2 & E2 & B2 & N2).
  destruct (Wheel_get_val_ok w3 Hk2) as (b3 & E3 & B3 & N3).
  destruct (Wheel_get_val_ok w4 Hk3) as (b4 & E4 & B4 & N4).
  exists w0, w1, w2, w3, w4, b0, b1, b2, b3, b4.
  repeat (split; [assumption || reflexivity|]).
  split; [repeat constructor; assumption|].
  unfold WheelBank.get_val. cbn [WheelBank.wheels].
  change (range 5) with [0; 1; 2; 3; 4]. cbn [mapM].
  change (index [w0; w1; w2; w3; w4] 0) with (Ok w0).
  change (index [w0; w1; w2; w3; w4] 1) with (Ok w1).
  change (index [w0; w1; w2; w3; w4] 2) with (Ok w2).
  change (index [w0; w1; w2; w3; w4] 3) with (Ok w3).
  change (index [w0; w1; w2; w3; w4] 4) with (Ok w4).
  rewrite !bind_Ok, E0, E1, E2, E3, E4, !bind_Ok.
  apply five_bits_value; assumption.
Qed.

Lemma WheelBank_get_val_unit (b : WheelBank.t) :
  bank_ok b = true ->
  exists v, WheelBank.get_val b = Ok v /\ is_unit v = true.
Proof.
  intros H.
  destruct (WheelBank_get_val_ok b H)
    as (w0 & w1 & w2 & w3 & w4 & b0 & b1 & b2 & b3 & b4 & _ & _ & _ & _
        & _ & _ & B0 & B1 & B2 & B3 & B4 & _ & E).
  eexists; split; [exact E|].
  apply (five_bits_value b0 b1 b2 b3 b4); assumption.
Qed.

(** ** One unit through the machine *)

Lemma sbind_Ok {St A B : Type} (m : M St A) (k : A -> M St B)
  (s s' : St) (a : A) :
  m s = (Ok a, s') -> sbind m k s = k a s'.
Proof. intros H; unfold sbind; rewrite H; reflexivity. Qed.

Lemma sbind_Raise {St A B : Type} (m : M St A) (k : A -> M St B)
  (s s' : St) (x : exn) :
  m s = (Raise x, s') -> sbind m k s = (Raise x, s').
Proof. intros H; unfold sbind; rewrite H; reflexivity. Qed.

Lemma X_val_eq (e : SFM_T52a.t) :
  SFM_T52a.X_val e = (WheelBank.get_val (SFM_T52a.X_wheels e), e).
Proof. destruct e; reflexivity. Qed.

Lemma S_val_eq (e : SFM_T52a.t) :
  SFM_T52a.S_val e = (WheelBank.get_val (SFM_T52a.S_wheels e), e).
Proof. destruct e; reflexivity. Qed.

Lemma SFM_advance_ok (e : SFM_T52a.t) :
  forallb position_ok (WheelBank.wheels (SFM_T52a.X_wheels e)) = true ->
  forallb position_ok (WheelBank.wheels (SFM_T52a.S_wheels e)) = true ->
  SFM_T52a.advance e = (Ok tt, engine_stepped e).
Proof.
  intros HX HS. unfold SFM_T52a.advance, sbind, SFM_T52a.on_X, SFM_T52a.on_S.
  rewrite WheelBank_advance_ok by exact HX. cbn [SFM_T52a.S_wheels].
  rewrite WheelBank_advance_ok by exact HS. reflexivity.
Qed.

Lemma SFM_advance_engine_ok (e : SFM_T52a.t) :
  engine_ok e = true -> SFM_T52a.advance e = (Ok tt, engine_stepped e).
Proof.
  intros H; apply engine_ok_inv in H; destruct H as [HX HS].
  apply bank_ok_inv in HX, HS.
  apply SFM_advance_ok; apply forallb_wheel_ok_position; tauto.
Qed.

(** [encrypt_char] and [decrypt_char] once the two bank values are known
    and the wheels can advance. *)
Lemma encrypt_char_run (e e' : SFM_T52a.t) (c x s : Z) :
  WheelBank.get_val (SFM_T52a.X_wheels e) = Ok x ->
  WheelBank.get_val (SFM_T52a.S_wheels e) = Ok s ->
  SFM_T52a.advance e = (Ok tt, e') ->
  SFM_T52a.encrypt_char c e
  = (int_of_str (swaps_enc s (format_b 5 (Z.lxor c x))) 2, e').
Proof.
  intros HX HS Hadv. unfold SFM_T52a.encrypt_char.
  rewrite (sbind_Ok _ _ e e x) by (rewrite X_val_eq, HX; reflexivity).
  do 5 rewrite (sbind_Ok _ _ e e s) by (rewrite S_val_eq, HS; reflexivity).
  rewrite (sbind_Ok _ _ e e' tt) by exact Hadv.
  reflexivity.
Qed.

Lemma decrypt_char_run (e e' : SFM_T52a.t) (c x s : Z) :
  WheelBank.get_val (SFM_T52a.X_wheels e) = Ok x ->
  WheelBank.get_val (SFM_T52a.S_wheels e) = Ok s ->
  SFM_T52a.advance e = (Ok tt, e') ->
  SFM_T52a.decrypt_char c e
  = match int_of_str (swaps_dec s (format_b 5 c)) 2 with
    | Ok v => (Ok (Z.lxor v x), e')
    | Raise ex => (Raise ex, e)
    end.
Proof.
  intros HX HS Hadv. unfold SFM_T52a.decrypt_char.
  do 5 rewrite (sbind_Ok _ _ e e s) by (rewrite S_val_eq, HS; reflexivity).
  unfold swaps_dec.
  match goal with
  | |- context [match int_of_str ?r 2 with _ => _ end] =>
      destruct (int_of_str r 2) as [v|ex] eqn:E
  end.
  - rewrite (sbind_Ok _ _ e e v) by reflexivity.
    rewrite (sbind_Ok _ _ e e x) by (rewrite X_val_eq, HX; reflexivity).
    rewrite (sbind_Ok _ _ e e' tt) by exact Hadv.
    reflexivity.
  - rewrite (sbind_Raise _ _ e e ex) by reflexivity.
    reflexivity.
Qed.

(** ** The transform on 5-bit units, by enumeration *)

Lemma is_unit_inv (c : Z) : is_unit c = true -> 0 <= c <= 31.
Proof. unfold is_unit; intros H; apply andb_true_iff in H; lia. Qed.

Lemma is_unit_intro (c : Z) : 0 <= c <= 31 -> is_unit c = true.
Proof. unfold is_unit; intros H; apply andb_true_iff; lia. Qed.

Lemma in_range (n : nat) (c : Z) :
  0 <= c < Z.of_nat n -> In c (range n).
Proof.
  intros H. unfold range. apply in_map_iff.
  exists (Z.to_nat c). split; [lia|]. apply in_seq. lia.
Qed.

Lemma units_enumerated (P : Z -> Z -> bool) :
  forallb (fun a => forallb (P a) (range 32)) (range 32) = true ->
  forall a b, is_unit a = true -> is_unit b = true -> P a b = true.
Proof.
  intros H a b Ha Hb. apply is_unit_inv in Ha, Hb.
  rewrite forallb_forall in H.
  specialize (H a (in_range 32 a ltac:(lia))).
  rewrite forallb_forall in H.
  apply H, in_range; lia.
Qed.

Lemma lxor_unit (c x : Z) :
  is_unit c = true -> is_unit x = true -> is_unit (Z.lxor c x) = true.
Proof.
  apply (units_enumerated (fun c x => is_unit (Z.lxor c x))).
  vm_compute; reflexivity.
Qed.

Lemma lxor_cancel (c x : Z) : Z.lxor (Z.lxor c x) x = c.
Proof. rewrite Z.lxor_assoc, Z.lxor_nilpotent, Z.lxor_0_r; reflexivity. Qed.

(** What [encrypt_char] makes of the unit [r = c ^ x] under the swap value
    [s] is a unit again, and [decrypt_char] under the same [s] undoes it. *)
Lemma swaps_roundtrip (s r : Z) :
  is_unit s = true -> is_unit r = true ->
  exists v,
    int_of_str (swaps_enc s (format_b 5 r)) 2 = Ok v
    /\ is_unit v = true
    /\ int_of_str (swaps_dec s (format_b 5 v)) 2 = Ok r.
Proof.
  intros Hs Hr.
  pose proof
    (units_enumerated
       (fun s r =>
          match int_of_str (swaps_enc s (format_b 5 r)) 2 with
          | Ok v =>
              is_unit v
              && match int_of_str (swaps_dec s (format_b 5 v)) 2 with
                 | Ok r' => r' =? r
                 | Raise _ => false
                 end
          | Raise _ => false
          end)) as H.
  specialize (H ltac:(vm_compute; reflexivity) s r Hs Hr). cbv beta in H.
  destruct (int_of_str (swaps_enc s (format_b 5 r)) 2) as [v|];
    [|discriminate].
  apply andb_true_iff in H; destruct H as [Hv H].
  exists v; repeat split; auto.
  destruct (int_of_str (swaps_dec s (format_b 5 v)) 2) as [r'|];
    [|discriminate].
  f_equal; lia.
Qed.

(** The same the other way round: [encrypt_char] undoes [decrypt_char]. *)
Lemma swaps_dec_unit (s c : Z) :
  is_unit s = true -> is_unit c = true ->
  exists v,
    int_of_str (swaps_dec s (format_b 5 c)) 2 = Ok v /\ is_unit v = true.
Proof.
  intros Hs Hc.
  pose proof
    (units_enumerated
       (fun s c =>
          match int_of_str (swaps_dec s (format_b 5 c)) 2 with
          | Ok v => is_unit v
          | Raise _ => false
          end)) as H.
  specialize (H ltac:(vm_compute; reflexivity) s c Hs Hc). cbv beta in H.
  destruct (int_of_str (swaps_dec s (format_b 5 c)) 2) as [v|];
    [|discriminate].
  exists v; auto.
Qed.

Lemma chr_unit (v : Z) : is_unit v = true -> chr v = Ok v.
Proof.
  intros H; apply is_unit_inv in H. unfold chr.
  replace ((0 <=? v) && (v <=? 1114111)) with true by lia. reflexivity.
Qed.

(** One in-range unit through a well-formed machine. *)
Lemma encrypt_char_unit (e : SFM_T52a.t) (c : Z) :
  engine_ok e = true -> is_unit c = true ->
  exists v,
    SFM_T52a.encrypt_char c e = (Ok v, engine_stepped e)
    /\ is_unit v = true
    /\ SFM_T52a.decrypt_char v e = (Ok c, engine_stepped e).
Proof.
  intros He Hc.
  pose proof (SFM_advance_engine_ok e He) as Hadv.
  apply engine_ok_inv in He; destruct He as [HX HS].
  destruct (WheelBank_get_val_unit _ HX) as (x & Ex & Ux).
  destruct (WheelBank_get_val_unit _ HS) as (s & Es & Us).
  destruct (swaps_roundtrip s (Z.lxor c x) Us (lxor_unit c x Hc Ux))
    as (v & Ev & Uv & Dv).
  exists v.
  rewrite (encrypt_char_run e _ c x s Ex Es Hadv), Ev.
  rewrite (decrypt_char_run e _ v x s Ex Es Hadv), Dv.
  rewrite lxor_cancel. auto.
Qed.

Lemma decrypt_char_unit (e : SFM_T52a.t) (c : Z) :
  engine_ok e = true -> is_unit c = true ->
  exists v,
    SFM_T52a.decrypt_char c e = (Ok v, engine_stepped e)
    /\ is_unit v = true.
Proof.
  intros He Hc.
  pose proof (SFM_advance_engine_ok e He) as Hadv.
  apply engine_ok_inv in He; destruct He as [HX HS].
  destruct (WheelBank_get_val_unit _ HX) as (x & Ex & Ux).
  destruct (WheelBank_get_val_unit _ HS) as (s & Es & Us).
  destruct (swaps_dec_unit s c Us Hc) as (v & Ev & Uv).
  exists (Z.lxor v x).
  rewrite (decrypt_char_run e _ c x s Ex Es Hadv), Ev.
  auto using lxor_unit.
Qed.

(** ** The machine built from key material *)

Lemma wheel_init_ok (data : list Z) (i : Z) :
  pattern_ok (data, i) = true -> wheel_ok (Wheel.init data i) = true.
Proof.
  unfold pattern_ok, wheel_ok, position_ok, Wheel.init; simpl.
  intros H. rewrite Z.eqb_refl. simpl. rewrite andb_assoc. exact H.
Qed.

Lemma init_ok (X S : list (list Z)) (initial : list Z) :
  key_ok X S initial = true ->
  engine_ok (SFM_T52a.init X S initial) = true.
Proof.
  unfold key_ok. intros H.
  apply andb_true_iff in H; destruct H as [H Hp].
  apply andb_true_iff in H; destruct H as [H HI].
  apply andb_true_iff in H; destruct H as [HX HS].
  apply Nat.eqb_eq in HX, HS, HI.
  destruct X as [|x0 [|x1 [|x2 [|x3 [|x4 [|? ?]]]]]]; try discriminate.
  destruct S as [|s0 [|s1 [|s2 [|s3 [|s4 [|? ?]]]]]]; try discriminate.
  destruct initial
    as [|i0 [|i1 [|i2 [|i3 [|i4 [|i5 [|i6 [|i7 [|i8 [|i9 [|? ?]]]]]]]]]]];
    try discriminate.
  clear HX HS HI. cbn [app combine forallb] in Hp.
  repeat match type of Hp with
         | (_ && _) = true =>
             apply andb_true_iff in Hp;
             let Hk := fresh "Hk" in destruct Hp as [Hk Hp]
         end.
  unfold SFM_T52a.init.
  change (upto 5 [i0; i1; i2; i3; i4; i5; i6; i7; i8; i9])
    with [i0; i1; i2; i3; i4].
  change (from 5 [i0; i1; i2; i3; i4; i5; i6; i7; i8; i9])
    with [i5; i6; i7; i8; i9].
  unfold engine_ok, bank_ok, WheelBank.init.
  cbn [combine map SFM_T52a.X_wheels SFM_T52a.S_wheels WheelBank.wheels
       length forallb Nat.eqb].
  rewrite !wheel_init_ok by assumption. reflexivity.
Qed.

(** ** Streams of units *)

Lemma stream_roundtrip (u : list Z) (e : SFM_T52a.t) :
  engine_ok e = true -> forallb is_unit u = true ->
  exists ct e',
    SFM_T52a.encrypt u e = (Ok ct, e')
    /\ forallb is_unit ct = true
    /\ SFM_T52a.decrypt ct e = (Ok u, e').
Proof.
  revert e; induction u as [|c u IH]; intros e He Hu.
  - exists [], e; auto.
  - simpl in Hu; apply andb_true_iff in Hu; destruct Hu as [Hc Hu].
    destruct (encrypt_char_unit e c He Hc) as (v & Ev & Uv & Dv).
    destruct (IH (engine_stepped e) (engine_stepped_ok e He) Hu)
      as (ct & e' & Ect & Uct & Dct).
    exists (v :: ct), e'. simpl. unfold ord.
    rewrite (sbind_Ok _ _ _ _ _ Ev).
    rewrite (sbind_Ok _ _ _ (engine_stepped e) v)
      by (unfold reads; rewrite chr_unit by exact Uv; reflexivity).
    rewrite (sbind_Ok _ _ _ _ _ Ect).
    rewrite Uv, Uct.
    rewrite (sbind_Ok _ _ _ _ _ Dv).
    rewrite (sbind_Ok _ _ _ (engine_stepped e) c)
      by (unfold reads; rewrite chr_unit by exact Hc; reflexivity).
    rewrite (sbind_Ok _ _ _ _ _ Dct).
    auto.
Qed.

(** C1. Round trip of the cipher: for key material of ten bit patterns of
    positive length with ten positions, each inside its pattern, and for
    every sequence of units in [0,31], encrypting with a machine built from
    the key material and decrypting the result with a second machine built
    from the same key material gives the sequence back. *)
Theorem C1_roundtrip (X S : list (list Z)) (initial u : list Z) :
  key_ok X S initial = true ->
  forallb is_unit u = true ->
  exists ct,
    fst (SFM_T52a.encrypt u (SFM_T52a.init X S initial)) = Ok ct
    /\ fst (SFM_T52a.decrypt ct (SFM_T52a.init X S initial)) = Ok u.
Proof.
  intros Hk Hu.
  destruct (stream_roundtrip u _ (init_ok X S initial Hk) Hu)
    as (ct & e' & E & _ & D).
  exists ct. rewrite E, D. auto.
Qed.

Lemma C1_roundtrip_witness :
  key_ok demo_X demo_S demo_initial = true
  /\ forallb is_unit [5; 17; 31; 0; 9] = true
  /\ exists ct,
       fst (SFM_T52a.encrypt [5; 17; 31; 0; 9]
              (SFM_T52a.init demo_X demo_S demo_initial)) = Ok ct
       /\ fst (SFM_T52a.decrypt ct
                 (SFM_T52a.init demo_X demo_S demo_initial))
          = Ok [5; 17; 31; 0; 9].
Proof.
  split; [reflexivity|]. split; [reflexivity|].
  apply (C1_roundtrip demo_X demo_S demo_initial [5; 17; 31; 0; 9]);
    reflexivity.
Defined.

(** ** The value of a bank *)

(** C5. For a bank of five wheels whose pattern entries are bits and whose
    positions lie inside the patterns, [get_val] returns an integer in
    [0,31] whose bit [i], counted from the least significant, is the
    pattern entry of wheel [i] at that wheel's position; so wheel 0 gives
    the least significant bit and wheel 4 the most significant one. *)
Theorem C5_get_val_bits (b : WheelBank.t) :
  bank_ok b = true ->
  exists v,
    WheelBank.get_val b = Ok v
    /\ 0 <= v <= 31
    /\ forall i, 0 <= i < 5 ->
         exists w,
           nth_error (WheelBank.wheels b) (Z.to_nat i) = Some w
           /\ nth_error (Wheel.wheel_data w) (Z.to_nat (Wheel.state w))
              = Some (Z.b2z (Z.testbit v i)).
Proof.
  intros H.
  destruct (WheelBank_get_val_ok b H)
    as (w0 & w1 & w2 & w3 & w4 & b0 & b1 & b2 & b3 & b4 & Ews & _ & _ & _
        & _ & _ & B0 & B1 & B2 & B3 & B4 & HN & E).
  destruct (five_bits_value b0 b1 b2 b3 b4 B0 B1 B2 B3 B4)
    as (_ & Hu & T0 & T1 & T2 & T3 & T4).
  eexists; split; [exact E|]. split; [apply is_unit_inv, Hu|].
  intros i Hi. rewrite Ews.
  inversion HN as [|? ? ? ? N0 HN1]; subst; clear HN.
  inversion HN1 as [|? ? ? ? N1 HN2]; subst; clear HN1.
  inversion HN2 as [|? ? ? ? N2 HN3]; subst; clear HN2.
  inversion HN3 as [|? ? ? ? N3 HN4]; subst; clear HN3.
  inversion HN4 as [|? ? ? ? N4 _]; subst; clear HN4.
  assert (Hc : i = 0 \/ i = 1 \/ i = 2 \/ i = 3 \/ i = 4) by lia.
  destruct Hc as [-> | [-> | [-> | [-> | ->]]]].
  - exists w0; split; [reflexivity|]. rewrite T0; exact N0.
  - exists w1; split; [reflexivity|]. rewrite T1; exact N1.
  - exists w2; split; [reflexivity|]. rewrite T2; exact N2.
  - exists w3; split; [reflexivity|]. rewrite T3; exact N3.
  - exists w4; split; [reflexivity|]. rewrite T4; exact N4.
Qed.

Lemma C5_get_val_bits_witness :
  bank_ok (SFM_T52a.X_wheels demo) = true
  /\ exists v,
       WheelBank.get_val (SFM_T52a.X_wheels demo) = Ok v
       /\ 0 <= v <= 31
       /\ forall i, 0 <= i < 5 ->
            exists w,
              nth_error (WheelBank.wheels (SFM_T52a.X_wheels demo))
                        (Z.to_nat i) = Some w
              /\ nth_error (Wheel.wheel_data w) (Z.to_nat (Wheel.state w))
                 = Some (Z.b2z (Z.testbit v i)).
Proof.
  split; [reflexivity|].
  apply (C5_get_val_bits (SFM_T52a.X_wheels demo)); reflexivity.
Defined.

(** ** The swap steps *)

Lemma swaps_positions (p0 p1 p2 p3 p4 : ascii) :
  SFM_T52a.swap4 [p0; p1; p2; p3; p4] = [p4; p1; p2; p3; p0]
  /\ SFM_T52a.swap3 [p0; p1; p2; p3; p4] = [p0; p1; p2; p4; p3]
  /\ SFM_T52a.swap2 [p0; p1; p2; p3; p4] = [p0; p1; p3; p2; p4]
  /\ SFM_T52a.swap1 [p0; p1; p2; p3; p4] = [p0; p2; p1; p3; p4]
  /\ SFM_T52a.swap0 [p0; p1; p2; p3; p4] = [p1; p0; p2; p3; p4].
Proof. repeat split. Qed.

Lemma format_b_unit_length (v : Z) :
  is_unit v = true -> length (format_b 5 v) = 5%nat.
Proof.
  intros H.
  apply Nat.eqb_eq.
  apply (units_enumerated
           (fun _ v => (length (format_b 5 v) =? 5)%nat)
           ltac:(vm_compute; reflexivity) 0 v eq_refl H).
Qed.

(** C2. Each of the five swap steps, applied twice to a 5-bit value, gives
    the value back; on the five positions [p0 .. p4] of the value, most
    significant first, the step of s-bit 4 exchanges [p0] and [p4], that of
    s-bit 3 [p3] and [p4], that of s-bit 2 [p2] and [p3], that of s-bit 1
    [p1] and [p2], that of s-bit 0 [p0] and [p1], and each leaves the other
    positions where they are. *)
Theorem C2_swap_involutions (v : Z) :
  is_unit v = true ->
  exists p0 p1 p2 p3 p4,
    format_b 5 v = [p0; p1; p2; p3; p4]
    /\ SFM_T52a.swap4 (format_b 5 v) = [p4; p1; p2; p3; p0]
    /\ SFM_T52a.swap3 (format_b 5 v) = [p0; p1; p2; p4; p3]
    /\ SFM_T52a.swap2 (format_b 5 v) = [p0; p1; p3; p2; p4]
    /\ SFM_T52a.swap1 (format_b 5 v) = [p0; p2; p1; p3; p4]
    /\ SFM_T52a.swap0 (format_b 5 v) = [p1; p0; p2; p3; p4]
    /\ Forall (fun swap =>
                 swap (swap (format_b 5 v)) = format_b 5 v
                 /\ int_of_str (swap (swap (format_b 5 v))) 2 = Ok v)
              [SFM_T52a.swap4; SFM_T52a.swap3; SFM_T52a.swap2;
               SFM_T52a.swap1; SFM_T52a.swap0].
Proof.
  intros H. pose proof (format_b_unit_length v H) as Hl.
  pose proof (int_of_str_format_b 5 v) as Hv.
  destruct (format_b 5 v) as [|p0 [|p1 [|p2 [|p3 [|p4 [|? ?]]]]]];
    try discriminate.
  exists p0, p1, p2, p3, p4.
  repeat (split; [reflexivity|]).
  repeat constructor; exact Hv.
Qed.

Lemma C2_swap_involutions_witness :
  is_unit 22 = true
  /\ exists p0 p1 p2 p3 p4,
       format_b 5 22 = [p0; p1; p2; p3; p4]
       /\ SFM_T52a.swap4 (format_b 5 22) = [p4; p1; p2; p3; p0]
       /\ SFM_T52a.swap3 (format_b 5 22) = [p0; p1; p2; p4; p3]
       /\ SFM_T52a.swap2 (format_b 5 22) = [p0; p1; p3; p2; p4]
       /\ SFM_T52a.swap1 (format_b 5 22) = [p0; p2; p1; p3; p4]
       /\ SFM_T52a.swap0 (format_b 5 22) = [p1; p0; p2; p3; p4]
       /\ Forall (fun swap =>
                    swap (swap (format_b 5 22)) = format_b 5 22
                    /\ int_of_str (swap (swap (format_b 5 22))) 2 = Ok 22)
                 [SFM_T52a.swap4; SFM_T52a.swap3; SFM_T52a.swap2;
                  SFM_T52a.swap1; SFM_T52a.swap0].
Proof.
  split; [reflexivity|].
  apply (C2_swap_involutions 22); reflexivity.
Defined.

(** ** No swap at all *)

Lemma swaps_enc_0 (r : str) : swaps_enc 0 r = r.
Proof. reflexivity. Qed.

Lemma swaps_dec_0 (r : str) : swaps_dec 0 r = r.
Proof. reflexivity. Qed.

Lemma quiet_run (e : SFM_T52a.t) (c x : Z) :
  engine_ok e = true ->
  WheelBank.get_val (SFM_T52a.X_wheels e) = Ok x ->
  WheelBank.get_val (SFM_T52a.S_wheels e) = Ok 0 ->
  SFM_T52a.encrypt_char c e = (Ok (Z.lxor c x), engine_stepped e)
  /\ SFM_T52a.decrypt_char c e = (Ok (Z.lxor c x), engine_stepped e).
Proof.
  intros He Ex Es.
  pose proof (SFM_advance_engine_ok e He) as Hadv.
  rewrite (encrypt_char_run e _ c x 0 Ex Es Hadv).
  rewrite (decrypt_char_run e _ c x 0 Ex Es Hadv).
  rewrite swaps_enc_0, swaps_dec_0, !int_of_str_format_b. auto.
Qed.

(** C3. Identity case: in a machine whose S bank reads 0, [encrypt_char]
    of a unit [c] returns [c] xor the value [x] the X bank has before the
    wheels advance, and [decrypt_char] of that output, in the same state,
    returns [c]. *)
Theorem C3_identity_case (e : SFM_T52a.t) (c : Z) :
  engine_ok e = true ->
  WheelBank.get_val (SFM_T52a.S_wheels e) = Ok 0 ->
  is_unit c = true ->
  exists x,
    WheelBank.get_val (SFM_T52a.X_wheels e) = Ok x
    /\ fst (SFM_T52a.encrypt_char c e) = Ok (Z.lxor c x)
    /\ fst (SFM_T52a.decrypt_char (Z.lxor c x) e) = Ok c.
Proof.
  intros He Es Hc.
  destruct (engine_ok_inv e He) as [HX _].
  destruct (WheelBank_get_val_unit _ HX) as (x & Ex & _).
  exists x. split; [exact Ex|].
  destruct (quiet_run e c x He Ex Es) as [E _].
  destruct (quiet_run e (Z.lxor c x) x He Ex Es) as [_ D].
  rewrite E, D, lxor_cancel. auto.
Qed.

Lemma C3_identity_case_witness :
  engine_ok quiet = true
  /\ WheelBank.get_val (SFM_T52a.S_wheels quiet) = Ok 0
  /\ is_unit 9 = true
  /\ exists x,
       WheelBank.get_val (SFM_T52a.X_wheels quiet) = Ok x
       /\ fst (SFM_T52a.encrypt_char 9 quiet) = Ok (Z.lxor 9 x)
       /\ fst (SFM_T52a.decrypt_char (Z.lxor 9 x) quiet) = Ok 9.
Proof.
  split; [reflexivity|]. split; [reflexivity|]. split; [reflexivity|].
  apply (C3_identity_case quiet 9); reflexivity.
Defined.

(** ** Stepping *)

Lemma stepped_advanced (ws : list Wheel.t) :
  Forall2 advanced ws (map stepped ws).
Proof.
  induction ws as [|w ws IH]; simpl; constructor; auto.
  repeat split.
Qed.

(** C7. Every call of [encrypt_char] or [decrypt_char] on a unit moves the
    position of each of the ten wheels by one, modulo the length of the
    wheel, and leaves the patterns and the lengths as they were; the
    machine holds nothing else. *)
Theorem C7_stepping_frame (e : SFM_T52a.t) (c : Z) :
  engine_ok e = true ->
  is_unit c = true ->
  exists v v' e',
    SFM_T52a.encrypt_char c e = (Ok v, e')
    /\ SFM_T52a.decrypt_char c e = (Ok v', e')
    /\ Forall2 advanced (WheelBank.wheels (SFM_T52a.X_wheels e))
                        (WheelBank.wheels (SFM_T52a.X_wheels e'))
    /\ Forall2 advanced (WheelBank.wheels (SFM_T52a.S_wheels e))
                        (WheelBank.wheels (SFM_T52a.S_wheels e')).
Proof.
  intros He Hc.
  destruct (encrypt_char_unit e c He Hc) as (v & Ev & _ & _).
  destruct (decrypt_char_unit e c He Hc) as (v' & Dv & _).
  exists v, v', (engine_stepped e).
  repeat split; auto; apply stepped_advanced.
Qed.

Lemma C7_stepping_frame_witness :
  engine_ok demo = true
  /\ is_unit 17 = true
  /\ exists v v' e',
       SFM_T52a.encrypt_char 17 demo = (Ok v, e')
       /\ SFM_T52a.decrypt_char 17 demo = (Ok v', e')
       /\ Forall2 advanced (WheelBank.wheels (SFM_T52a.X_wheels demo))
                           (WheelBank.wheels (SFM_T52a.X_wheels e'))
       /\ Forall2 advanced (WheelBank.wheels (SFM_T52a.S_wheels demo))
                           (WheelBank.wheels (SFM_T52a.S_wheels e')).
Proof.
  split; [reflexivity|]. split; [reflexivity|].
  apply (C7_stepping_frame demo 17); reflexivity.
Defined.

(** ** Periods *)

Lemma shifted_stepped (n : Z) (w : Wheel.t) :
  shifted n (stepped w) = shifted (n + 1) w.
Proof.
  unfold shifted, stepped; simpl. f_equal.
  rewrite Zplus_mod_idemp_l. f_equal. lia.
Qed.

Lemma shifted_0 (w : Wheel.t) : position_ok w = true -> shifted 0 w = w.
Proof.
  intros H; apply position_ok_inv in H. destruct w as [d s p]; simpl in *.
  unfold shifted; simpl. rewrite Z.add_0_r, Z.mod_small by lia. reflexivity.
Qed.

Lemma map_shifted_0 (ws : list Wheel.t) :
  forallb position_ok ws = true -> map (shifted 0) ws = ws.
Proof.
  induction ws as [|w ws IH]; simpl; [reflexivity|].
  intros H; apply andb_true_iff in H; destruct H as [Hw Hws].
  rewrite shifted_0, IH by assumption. reflexivity.
Qed.

Lemma map_shifted_stepped (n : Z) (ws : list Wheel.t) :
  map (shifted n) (map stepped ws) = map (shifted (n + 1)) ws.
Proof.
  rewrite map_map. apply map_ext. intros w; apply shifted_stepped.
Qed.

Lemma bank_times_advance (n : nat) (b : WheelBank.t) :
  forallb position_ok (WheelBank.wheels b) = true ->
  times n WheelBank.advance b
  = (Ok tt,
     {| WheelBank.wheels :=
          map (shifted (Z.of_nat n)) (WheelBank.wheels b) |}).
Proof.
  revert b; induction n as [|n IH]; intros b H.
  - simpl. rewrite map_shifted_0 by exact H. destruct b; reflexivity.
  - cbn [times].
    rewrite (sbind_Ok _ _ _ _ _ (WheelBank_advance_ok b H)).
    rewrite IH
      by (apply forallb_map_stepped; auto using stepped_position_ok).
    unfold bank_stepped; cbn [WheelBank.wheels].
    rewrite map_shifted_stepped.
    replace (Z.of_nat n + 1) with (Z.of_nat (S n)) by lia. reflexivity.
Qed.

Lemma engine_times_advance (n : nat) (e : SFM_T52a.t) :
  forallb position_ok (WheelBank.wheels (SFM_T52a.X_wheels e)) = true ->
  forallb position_ok (WheelBank.wheels (SFM_T52a.S_wheels e)) = true ->
  times n SFM_T52a.advance e
  = (Ok tt,
     {| SFM_T52a.X_wheels :=
          {| WheelBank.wheels :=
               map (shifted (Z.of_nat n))
                   (WheelBank.wheels (SFM_T52a.X_wheels e)) |};
        SFM_T52a.S_wheels :=
          {| WheelBank.wheels :=
               map (shifted (Z.of_nat n))
                   (WheelBank.wheels (SFM_T52a.S_wheels e)) |} |}).
Proof.
  revert e; induction n as [|n IH]; intros e HX HS.
  - simpl. rewrite !map_shifted_0 by assumption.
    destruct e as [[xs] [ss]]; reflexivity.
  - cbn [times].
    rewrite (sbind_Ok _ _ _ _ _ (SFM_advance_ok e HX HS)).
    rewrite IH
      by (apply forallb_map_stepped; auto using stepped_position_ok).
    unfold engine_stepped, bank_stepped;
      cbn [WheelBank.wheels SFM_T52a.X_wheels SFM_T52a.S_wheels].
    rewrite !map_shifted_stepped.
    replace (Z.of_nat n + 1) with (Z.of_nat (S n)) by lia. reflexivity.
Qed.

Lemma lcm_sizes_nonneg (ws : list Wheel.t) : 0 <= lcm_sizes ws.
Proof.
  unfold lcm_sizes. destruct ws; simpl; [lia | apply Z.lcm_nonneg].
Qed.

Lemma lcm_sizes_divide (ws : list Wheel.t) (w : Wheel.t) :
  In w ws -> (Wheel.wheel_size w | lcm_sizes ws).
Proof.
  unfold lcm_sizes. induction ws as [|a ws IH]; simpl; [tauto|].
  intros [->|H].
  - apply Z.divide_lcm_l.
  - eapply Z.divide_trans; [apply IH, H | apply Z.divide_lcm_r].
Qed.

Lemma shifted_multiple (n : Z) (w : Wheel.t) :
  position_ok w = true -> (Wheel.wheel_size w | n) -> shifted n w = w.
Proof.
  intros H [k ->]; apply position_ok_inv in H.
  destruct w as [d s p]; simpl in *. unfold shifted; simpl.
  rewrite Z_mod_plus_full, Z.mod_small by lia. reflexivity.
Qed.

Lemma map_shifted_period (n : Z) (ws : list Wheel.t) :
  forallb position_ok ws = true ->
  (forall w, In w ws -> (Wheel.wheel_size w | n)) ->
  map (shifted n) ws = ws.
Proof.
  intros Hp Hd. rewrite <- (map_id ws) at 2. apply map_ext_in.
  intros w Hw. rewrite forallb_forall in Hp.
  apply shifted_multiple; auto.
Qed.

(** C6. Period: advancing a bank whose wheels stand at valid positions as
    many times as the least common multiple of its wheel lengths brings
    every wheel back to the position it had; advancing the machine as many
    times as the least common multiple of all its wheel lengths brings the
    whole machine back to the state it had. *)
Theorem C6_period (b : WheelBank.t) (e : SFM_T52a.t) :
  forallb position_ok (WheelBank.wheels b) = true ->
  forallb position_ok
    (WheelBank.wheels (SFM_T52a.X_wheels e)
     ++ WheelBank.wheels (SFM_T52a.S_wheels e)) = true ->
  times (Z.to_nat (lcm_sizes (WheelBank.wheels b))) WheelBank.advance b
  = (Ok tt, b)
  /\ times (Z.to_nat
              (lcm_sizes (WheelBank.wheels (SFM_T52a.X_wheels e)
                          ++ WheelBank.wheels (SFM_T52a.S_wheels e))))
           SFM_T52a.advance e
     = (Ok tt, e).
Proof.
  intros Hb He. rewrite forallb_app in He.
  apply andb_true_iff in He; destruct He as [HX HS]. split.
  - rewrite bank_times_advance by exact Hb.
    rewrite Z2Nat.id by apply lcm_sizes_nonneg.
    rewrite map_shifted_period; auto using lcm_sizes_divide.
    destruct b; reflexivity.
  - rewrite engine_times_advance by assumption.
    rewrite Z2Nat.id by apply lcm_sizes_nonneg.
    rewrite !map_shifted_period; auto;
      try (intros w Hw; apply lcm_sizes_divide, in_or_app; auto).
    destruct e as [[xs] [ss]]; reflexivity.
Qed.

Lemma C6_period_witness :
  forallb position_ok (WheelBank.wheels (SFM_T52a.X_wheels demo)) = true
  /\ forallb position_ok
       (WheelBank.wheels (SFM_T52a.X_wheels demo)
        ++ WheelBank.wheels (SFM_T52a.S_wheels demo)) = true
  /\ times (Z.to_nat
              (lcm_sizes (WheelBank.wheels (SFM_T52a.X_wheels demo))))
           WheelBank.advance (SFM_T52a.X_wheels demo)
     = (Ok tt, SFM_T52a.X_wheels demo)
  /\ times (Z.to_nat
              (lcm_sizes (WheelBank.wheels (SFM_T52a.X_wheels demo)
                          ++ WheelBank.wheels (SFM_T52a.S_wheels demo))))
           SFM_T52a.advance demo
     = (Ok tt, demo).
Proof.
  split; [reflexivity|]. split; [reflexivity|].
  apply (C6_period (SFM_T52a.X_wheels demo) demo); reflexivity.
Defined.

(** ** Inputs above 31 *)

Lemma forallb_firstn {A : Type} (P : A -> bool) (n : nat) (l : list A) :
  forallb P l = true -> forallb P (firstn n l) = true.
Proof.
  revert n; induction l as [|a l IH]; intros [|n] H; simpl in *; auto.
  apply andb_true_iff in H; destruct H as [Ha Hl].
  rewrite Ha, IH; auto.
Qed.

Lemma forallb_skipn {A : Type} (P : A -> bool) (n : nat) (l : list A) :
  forallb P l = true -> forallb P (skipn n l) = true.
Proof.
  revert n; induction l as [|a l IH]; intros [|n] H; simpl in *; auto.
  apply andb_true_iff in H; destruct H as [Ha Hl]. auto.
Qed.

Lemma forallb_reversed {A : Type} (P : A -> bool) (l : list A) :
  forallb P l = true -> forallb P (reversed l) = true.
Proof.
  unfold reversed. induction l as [|a l IH]; simpl; auto.
  intros H; apply andb_true_iff in H; destruct H as [Ha Hl].
  rewrite forallb_app, IH by exact Hl. simpl. rewrite Ha. reflexivity.
Qed.

Lemma forallb_slice {A : Type} (P : A -> bool) (lo hi : option Z)
  (l : list A) :
  forallb P l = true -> forallb P (slice lo hi l) = true.
Proof. intros H. unfold slice. apply forallb_firstn, forallb_skipn, H. Qed.

Lemma slice_length {A : Type} (lo hi : option Z) (l : list A) :
  length (slice lo hi l)
  = (let n := length l in
     let a := match lo with Some i => clamp n i | None => O end in
     let b := match hi with Some i => clamp n i | None => n end in
     Nat.min (b - a) (n - a)).
Proof. unfold slice. rewrite length_firstn, length_skipn. reflexivity. Qed.

Lemma clamp_const (n : nat) (k : nat) :
  clamp n (Z.of_nat k) = Nat.min n k.
Proof.
  unfold clamp. destruct (Z.ltb_spec (Z.of_nat k) 0) as [H|H]; [lia|].
  rewrite Nat2Z.id. reflexivity.
Qed.

Ltac slice_lengths :=
  unfold upto, from, between, reversed;
  rewrite ?length_app, ?length_rev, ?slice_length;
  cbv zeta;
  change 1 with (Z.of_nat 1); change 2 with (Z.of_nat 2);
  change 3 with (Z.of_nat 3); change 4 with (Z.of_nat 4);
  change 5 with (Z.of_nat 5);
  rewrite ?clamp_const; lia.

Ltac slice_bins H :=
  rewrite ?forallb_app; unfold upto, from, between;
  repeat (apply andb_true_iff; split);
  try apply forallb_reversed; apply forallb_slice; exact H.

Lemma swap4_wide (s : str) : wide s -> wide (SFM_T52a.swap4 s).
Proof.
  intros [Hb Hl]; split; unfold SFM_T52a.swap4;
    [slice_bins Hb | slice_lengths].
Qed.

Lemma swap3_wide (s : str) : wide s -> wide (SFM_T52a.swap3 s).
Proof.
  intros [Hb Hl]; split; unfold SFM_T52a.swap3;
    [slice_bins Hb | slice_lengths].
Qed.

Lemma swap2_wide (s : str) : wide s -> wide (SFM_T52a.swap2 s).
Proof.
  intros [Hb Hl]; split; unfold SFM_T52a.swap2;
    [slice_bins Hb | slice_lengths].
Qed.

Lemma swap1_wide (s : str) : wide s -> wide (SFM_T52a.swap1 s).
Proof.
  intros [Hb Hl]; split; unfold SFM_T52a.swap1;
    [slice_bins Hb | slice_lengths].
Qed.

Lemma swap0_wide (s : str) : wide s -> wide (SFM_T52a.swap0 s).
Proof.
  intros [Hb Hl]; split; unfold SFM_T52a.swap0;
    [slice_bins Hb | slice_lengths].
Qed.

Lemma swap_if_wide (cond : Z) (swap : str -> str) (s : str) :
  (forall r, wide r -> wide (swap r)) ->
  wide s -> wide (SFM_T52a.swap_if cond swap s).
Proof. intros Hs H. unfold SFM_T52a.swap_if. destruct (truthy cond); auto. Qed.

Lemma swaps_enc_wide (z : Z) (s : str) : wide s -> wide (swaps_enc z s).
Proof.
  intros H. unfold swaps_enc.
  repeat (apply swap_if_wide;
          [first [exact swap0_wide | exact swap1_wide | exact swap2_wide
                 | exact swap3_wide | exact swap4_wide]|]).
  exact H.
Qed.

Lemma swaps_dec_wide (z : Z) (s : str) : wide s -> wide (swaps_dec z s).
Proof.
  intros H. unfold swaps_dec.
  repeat (apply swap_if_wide;
          [first [exact swap0_wide | exact swap1_wide | exact swap2_wide
                 | exact swap3_wide | exact swap4_wide]|]).
  exact H.
Qed.

Lemma format_b_wide (n : Z) : 0 <= n -> wide (format_b 5 n).
Proof.
  intros H. unfold format_b. replace (n <? 0) with false by lia. split.
  - apply zfill_bin, bin_abs_bin.
  - rewrite zfill_length. lia.
Qed.

Lemma int_of_str_wide (s : str) :
  wide s -> exists v, int_of_str s 2 = Ok v /\ 0 <= v.
Proof.
  intros [Hb Hl]. rewrite int_of_str_bin; auto.
  - apply digits_val_bin_nonneg; auto; lia.
  - destruct s; [simpl in Hl; lia | discriminate].
Qed.

Lemma lxor_above (c x : Z) :
  31 < c -> is_unit x = true -> 31 < Z.lxor c x.
Proof.
  intros Hc Hx.
  destruct (Z.le_gt_cases (Z.lxor c x) 31) as [Hle|Hgt]; [|lia].
  assert (H0 : 0 <= Z.lxor c x)
    by (apply Z.lxor_nonneg; apply is_unit_inv in Hx; lia).
  pose proof (lxor_unit (Z.lxor c x) x
                (is_unit_intro _ (conj H0 Hle)) Hx) as Hu.
  rewrite lxor_cancel in Hu. apply is_unit_inv in Hu. lia.
Qed.

(** C4, as the code has it.  [encrypt_char] and [decrypt_char] check no
    range: on a well-formed machine every input that is not negative, and
    so every input above 31, gives a result instead of an error and the
    wheels advance as they do for a unit; the input is not masked either:
    when the S bank reads 0 the result is the input xor the X bank value,
    which lies above 31 when the input does. *)
Theorem C4_no_range_check (e : SFM_T52a.t) (c : Z) :
  engine_ok e = true ->
  0 <= c ->
  (exists v, SFM_T52a.encrypt_char c e = (Ok v, engine_stepped e))
  /\ (exists v, SFM_T52a.decrypt_char c e = (Ok v, engine_stepped e))
  /\ (WheelBank.get_val (SFM_T52a.S_wheels e) = Ok 0 ->
      exists x,
        WheelBank.get_val (SFM_T52a.X_wheels e) = Ok x
        /\ fst (SFM_T52a.encrypt_char c e) = Ok (Z.lxor c x)
        /\ fst (SFM_T52a.decrypt_char c e) = Ok (Z.lxor c x)
        /\ (31 < c -> 31 < Z.lxor c x)).
Proof.
  intros He Hc.
  pose proof (SFM_advance_engine_ok e He) as Hadv.
  destruct (engine_ok_inv e He) as [HX HS].
  destruct (WheelBank_get_val_unit _ HX) as (x & Ex & Ux).
  destruct (WheelBank_get_val_unit _ HS) as (s & Es & Us).
  assert (Hcx : 0 <= Z.lxor c x)
    by (apply Z.lxor_nonneg; apply is_unit_inv in Ux; lia).
  destruct (int_of_str_wide _ (swaps_enc_wide s _ (format_b_wide _ Hcx)))
    as (v & Ev & _).
  destruct (int_of_str_wide _ (swaps_dec_wide s _ (format_b_wide _ Hc)))
    as (v' & Ev' & _).
  split; [|split].
  - exists v. rewrite (encrypt_char_run e _ c x s Ex Es Hadv), Ev.
    reflexivity.
  - exists (Z.lxor v' x).
    rewrite (decrypt_char_run e _ c x s Ex Es Hadv), Ev'. reflexivity.
  - intros E0. exists x. split; [exact Ex|].
    destruct (quiet_run e c x He Ex E0) as [E D].
    rewrite E, D. repeat split. intros H; apply lxor_above; auto.
Qed.

Lemma C4_no_range_check_witness :
  engine_ok quiet = true
  /\ 0 <= 100
  /\ (exists v, SFM_T52a.encrypt_char 100 quiet = (Ok v, engine_stepped quiet))
  /\ (exists v, SFM_T52a.decrypt_char 100 quiet = (Ok v, engine_stepped quiet))
  /\ (WheelBank.get_val (SFM_T52a.S_wheels quiet) = Ok 0 ->
      exists x,
        WheelBank.get_val (SFM_T52a.X_wheels quiet) = Ok x
        /\ fst (SFM_T52a.encrypt_char 100 quiet) = Ok (Z.lxor 100 x)
        /\ fst (SFM_T52a.decrypt_char 100 quiet) = Ok (Z.lxor 100 x)
        /\ (31 < 100 -> 31 < Z.lxor 100 x)).
Proof.
  split; [reflexivity|]. split; [lia|].
  apply (C4_no_range_check quiet 100); [reflexivity | lia].
Defined.

(** C4, as stated, fails: 32 is outside [0,31], and on the machine [quiet]
    neither [encrypt_char] nor [decrypt_char] rejects it; both return 53,
    which is 32 xor the X bank value 21. *)
Lemma C4_counterexample :
  is_unit 32 = false
  /\ engine_ok quiet = true
  /\ fst (SFM_T52a.encrypt_char 32 quiet) = Ok 53
  /\ fst (SFM_T52a.decrypt_char 32 quiet) = Ok 53.
Proof. repeat split. Qed.

(** ** The codec *)

Lemma land_ones_bound (a : Z) (n : Z) :
  0 <= n -> 0 <= Z.land a (Z.ones n) < 2 ^ n.
Proof.
  intros H. rewrite Z.land_ones by exact H.
  apply Z.mod_pos_bound. apply Z.pow_pos_nonneg; lia.
Qed.

Lemma land_MSX7_bound (b : Z) : 0 <= Z.land b MSX7 < 128.
Proof. exact (land_ones_bound b 7 ltac:(lia)). Qed.

Lemma land_MSX5_bound (b : Z) : 0 <= Z.land b MSX5 < 32.
Proof. exact (land_ones_bound b 5 ltac:(lia)). Qed.

Lemma index_nth {A : Type} (l : list A) (i : Z) (d : A) :
  0 <= i < Z.of_nat (length l) -> index l i = Ok (nth (Z.to_nat i) l d).
Proof.
  intros H. destruct (index_in_range l i H) as (a & E & N).
  rewrite E. f_equal. symmetry. apply nth_error_nth. exact N.
Qed.

Lemma asc2tty_lookup (b : Z) : index asc2tty (Z.land b MSX7) = Ok (entry b).
Proof. apply index_nth. exact (land_MSX7_bound b). Qed.

Lemma chr_MSX5 (c : Z) : chr (Z.land c MSX5) = Ok (Z.land c MSX5).
Proof.
  pose proof (land_MSX5_bound c). apply chr_unit, is_unit_intro. lia.
Qed.

Lemma ascii2tty_step_emit (figs : bool) (result : list Z) (b : Z) :
  ascii2tty_step (figs, result) b
  = Ok (fst (emit figs b), result ++ snd (emit figs b)).
Proof.
  unfold ascii2tty_step, emit. rewrite asc2tty_lookup, bind_Ok.
  destruct (entry b =? INVC); cbn [negb].
  - rewrite app_nil_r. reflexivity.
  - destruct (truthy (Z.land (entry b) ETHR_F)).
    + rewrite bind_Ok, chr_MSX5. reflexivity.
    + destruct (truthy (Z.land (entry b) FIGS_F)), figs; cbn [negb];
        change (chr FIGS) with (Ok FIGS);
        change (chr LTRS) with (Ok LTRS);
        rewrite ?bind_Ok, chr_MSX5; cbn [fst snd bind app];
        rewrite <- ?app_assoc; reflexivity.
Qed.

Lemma ascii2tty_loop (s : list Z) (figs : bool) (result : list Z) :
  exists figs',
    foldM ascii2tty_step s (figs, result)
    = Ok (figs', result ++ units figs s).
Proof.
  revert figs result; induction s as [|b t IH]; intros figs result.
  - exists figs. simpl. rewrite app_nil_r. reflexivity.
  - destruct (IH (fst (emit figs b)) (result ++ snd (emit figs b)))
      as (figs' & E).
    exists figs'. cbn [foldM units].
    rewrite ascii2tty_step_emit, bind_Ok, E, app_assoc. reflexivity.
Qed.

Lemma initial_shift_first (s : list Z) :
  initial_shift s = Ok (first_shift s).
Proof.
  destruct s as [|b t]; [reflexivity|].
  unfold initial_shift, first_shift.
  destruct (Z.ltb_spec 0 (Z.of_nat (length (b :: t)))) as [_|Hl];
    [|simpl length in Hl; lia].
  replace (index (b :: t) 0) with (Ok b)
    by (symmetry; apply (index_nth (b :: t) 0 b); simpl length; lia).
  rewrite bind_Ok, asc2tty_lookup, bind_Ok.
  destruct (truthy (Z.land (entry b) ETHR_F)); [reflexivity|].
  destruct (truthy (Z.land (entry b) FIGS_F)); reflexivity.
Qed.

(** [ascii2tty] never raises; its output is the initial shift unit, if
    any, followed by what the bytes emit one after the other. *)
Lemma ascii2tty_units (s : list Z) :
  ascii2tty s
  = Ok (snd (first_shift s) ++ units (fst (first_shift s)) s).
Proof.
  unfold ascii2tty. rewrite initial_shift_first, bind_Ok.
  destruct (first_shift s) as [figs pre].
  destruct (ascii2tty_loop s figs pre) as (figs' & E).
  rewrite E. reflexivity.
Qed.

Lemma tty2ascii_step_decode1 (figs : bool) (result : list tty_entry)
  (c : Z) :
  tty2ascii_step (figs, result) c
  = Ok (fst (decode1 figs c), result ++ snd (decode1 figs c)).
Proof.
  unfold tty2ascii_step, decode1, ord.
  pose proof (land_MSX5_bound c) as Hc.
  destruct (Z.land c MSX5 =? LTRS);
    [cbn [fst snd]; rewrite app_nil_r; reflexivity|].
  destruct (Z.land c MSX5 =? FIGS);
    [cbn [fst snd]; rewrite app_nil_r; reflexivity|].
  destruct figs;
    rewrite (index_nth _ _ (Num 0)) by (simpl length; lia);
    reflexivity.
Qed.

Lemma tty2ascii_loop (us : list Z) (figs : bool) (result : list tty_entry) :
  foldM tty2ascii_step us (figs, result)
  = Ok (shift_after figs us, result ++ decoded figs us).
Proof.
  revert figs result; induction us as [|c t IH]; intros figs result.
  - simpl. rewrite app_nil_r. reflexivity.
  - cbn [foldM decoded shift_after].
    rewrite tty2ascii_step_decode1, bind_Ok, IH, app_assoc. reflexivity.
Qed.

Lemma tty2ascii_decoded (us : list Z) :
  tty2ascii us = join (decoded false us).
Proof. unfold tty2ascii. rewrite tty2ascii_loop. reflexivity. Qed.

Lemma decoded_app (figs : bool) (l1 l2 : list Z) :
  decoded figs (l1 ++ l2)
  = decoded figs l1 ++ decoded (shift_after figs l1) l2.
Proof.
  revert figs; induction l1 as [|c t IH]; intros figs; simpl;
    [reflexivity|].
  rewrite IH, app_assoc. reflexivity.
Qed.

Lemma join_Chr (l : str) : join (map Chr l) = Ok l.
Proof.
  unfold join. induction l as [|c t IH]; simpl; [reflexivity|].
  rewrite IH. reflexivity.
Qed.

Lemma faithful_range (b : Z) : faithful b = true -> 0 <= b < 128.
Proof.
  unfold faithful. simpl existsb. intros H.
  repeat (apply orb_true_iff in H; destruct H as [H|H]);
    try discriminate; lia.
Qed.

Lemma faithful_roundtrips (figs : bool) (b : Z) :
  faithful b = true -> byte_roundtrips figs b = true.
Proof.
  intros H.
  assert (Hall :
    forallb (fun b =>
               implb (faithful b)
                     (byte_roundtrips true b && byte_roundtrips false b))
            (range 128) = true) by (vm_compute; reflexivity).
  rewrite forallb_forall in Hall.
  specialize (Hall b (in_range 128 b (faithful_range b H))).
  rewrite H in Hall. simpl in Hall.
  apply andb_true_iff in Hall. destruct figs; tauto.
Qed.

(** The bytes of a sequence decoded again, one by one. *)
Lemma decoded_units (s : list Z) (figs : bool) :
  forallb (fun b => faithful b || absent b) s = true ->
  decoded figs (units figs s)
  = map Chr
      (map byte_char (map upper (filter (fun b => negb (absent b)) s))).
Proof.
  revert figs; induction s as [|b t IH]; intros figs H; [reflexivity|].
  cbn [forallb] in H. apply andb_true_iff in H; destruct H as [Hb Ht].
  cbn [units filter]. rewrite decoded_app.
  destruct (faithful b) eqn:Ef.
  - pose proof (faithful_roundtrips figs b Ef) as R.
    unfold byte_roundtrips in R.
    destruct (decoded figs (snd (emit figs b))) as [|[c|n] [|? ?]];
      try discriminate.
    apply andb_true_iff in R; destruct R as [R Ha].
    apply andb_true_iff in R; destruct R as [Rc Rs].
    apply Ascii.eqb_eq in Rc. apply Bool.eqb_prop in Rs.
    rewrite Ha, Rs, IH by exact Ht. cbn [map app]. rewrite Rc. reflexivity.
  - simpl in Hb. rewrite Hb. cbn [negb].
    unfold emit. unfold absent in Hb. rewrite Hb. cbn [fst snd].
    simpl. apply IH, Ht.
Qed.

Lemma decoded_first_shift (s tail : list Z) :
  decoded false (snd (first_shift s) ++ tail)
  = decoded (fst (first_shift s)) tail.
Proof.
  unfold first_shift. destruct s as [|b t]; [reflexivity|].
  destruct (truthy (Z.land (entry b) ETHR_F)); [reflexivity|].
  destruct (truthy (Z.land (entry b) FIGS_F)); reflexivity.
Qed.

Lemma units_absent (s : list Z) (figs : bool) :
  forallb absent s = true -> units figs s = [].
Proof.
  revert figs; induction s as [|b t IH]; intros figs H; [reflexivity|].
  cbn [forallb] in H. apply andb_true_iff in H; destruct H as [Hb Ht].
  cbn [units]. unfold emit. unfold absent in Hb. rewrite Hb.
  cbn [fst snd app]. apply IH, Ht.
Qed.

Lemma first_shift_all_absent (s : list Z) :
  forallb absent s = true -> snd (first_shift s) = [].
Proof.
  destruct s as [|b t]; [reflexivity|]. cbn [forallb]. intros H.
  apply andb_true_iff in H; destruct H as [Hb _].
  unfold absent in Hb. apply Z.eqb_eq in Hb.
  unfold first_shift. rewrite Hb. reflexivity.
Qed.

(** C9, as the code has it.  For every sequence of bytes each of which is
    a letter, a digit or one of [$ ' ( ) + , - . / : = ?], or is absent
    from the mapping, decoding the encoding gives the sequence with the
    absent bytes left out and the letters upper-cased; a sequence of
    absent bytes only is encoded to no unit at all. *)
Theorem C9_codec_roundtrip (s : list Z) :
  forallb (fun b => faithful b || absent b) s = true ->
  exists us,
    ascii2tty s = Ok us
    /\ tty2ascii us
       = Ok (map byte_char
               (map upper (filter (fun b => negb (absent b)) s)))
    /\ (forallb absent s = true -> us = []).
Proof.
  intros H. eexists. split; [apply ascii2tty_units|]. split.
  - rewrite tty2ascii_decoded, decoded_first_shift, decoded_units
      by exact H.
    apply join_Chr.
  - intros Ha. rewrite first_shift_all_absent, units_absent by exact Ha.
    reflexivity.
Qed.

Lemma C9_codec_roundtrip_witness :
  forallb (fun b => faithful b || absent b)
          [72; 105; 33; 52; 50; 63; 97] = true
  /\ exists us,
       ascii2tty [72; 105; 33; 52; 50; 63; 97] = Ok us
       /\ tty2ascii us
          = Ok (map byte_char
                  (map upper
                     (filter (fun b => negb (absent b))
                             [72; 105; 33; 52; 50; 63; 97])))
       /\ (forallb absent [72; 105; 33; 52; 50; 63; 97] = true
           -> us = []).
Proof.
  split; [reflexivity|].
  apply (C9_codec_roundtrip [72; 105; 33; 52; 50; 63; 97]); reflexivity.
Defined.

(** C9, as stated, fails: the byte 60, [<], is punctuation the encode
    table maps, and it comes back as [(]. *)
Lemma C9_counterexample :
  absent 60 = false
  /\ ascii2tty [60] = Ok [27; 30]
  /\ tty2ascii [27; 30] = Ok ["("%char]
  /\ map byte_char (map upper [60]) = ["<"%char].
Proof. repeat split. Qed.

(** ** The initial shift *)

(** The initial shift is decided by the first byte alone, and a first byte
    absent from the mapping counts as valid in either shift: [INVC] has the
    bit [ETHR_F] set. *)
Lemma first_shift_absent (b : Z) (t : list Z) :
  absent b = true -> first_shift (b :: t) = (false, []).
Proof.
  unfold absent, first_shift. intros H. apply Z.eqb_eq in H.
  rewrite H. reflexivity.
Qed.

(** C10, at the input where the code departs from it.  Of the bytes [!A]
    the first encodable one is [A], which needs the letters shift; yet
    [ascii2tty] emits the unit 24 of [A] with no shift unit before it,
    because it looks at the first byte only, and [!] is absent from the
    mapping.  For [A] alone it does emit the letters shift first. *)
Theorem C10_initial_shift_skipped :
  absent 33 = true
  /\ ascii2tty [33; 65] = Ok [24]
  /\ ascii2tty [65] = Ok [LTRS; 24].
Proof. repeat split. Qed.

(** ** Key generation *)

Lemma firstn_min {A : Type} (k : nat) (l : list A) :
  firstn (Nat.min (length l) k) l = firstn k l.
Proof.
  destruct (Nat.le_gt_cases k (length l)) as [H|H].
  - rewrite Nat.min_r by exact H. reflexivity.
  - rewrite Nat.min_l, !firstn_all2 by lia. reflexivity.
Qed.

Lemma upto_firstn {A : Type} (n : Z) (l : list A) :
  0 <= n -> upto n l = firstn (Z.to_nat n) l.
Proof.
  intros H. unfold upto, slice, clamp.
  destruct (Z.ltb_spec n 0) as [?|_]; [lia|].
  rewrite Nat.sub_0_r. cbn [skipn]. apply firstn_min.
Qed.

Lemma from_skipn {A : Type} (n : Z) (l : list A) :
  0 <= n -> from n l = skipn (Z.to_nat n) l.
Proof.
  intros H. unfold from, slice, clamp.
  destruct (Z.ltb_spec n 0) as [?|_]; [lia|].
  rewrite firstn_all2 by (rewrite length_skipn; lia).
  destruct (Nat.le_gt_cases (Z.to_nat n) (length l)) as [Hl|Hl].
  - rewrite Nat.min_r by exact Hl. reflexivity.
  - rewrite Nat.min_l, !skipn_all2 by lia. reflexivity.
Qed.

Lemma bitval_bit (c : ascii) : is_bit (bitval c) = true.
Proof. unfold bitval. destruct (c =? "1")%char; reflexivity. Qed.

Lemma int_of_digit (c : ascii) :
  is_bin c = true -> int_of_str [c] 10 = Ok (bitval c).
Proof.
  intros H. destruct (is_bin_cases c H); subst c; reflexivity.
Qed.

Lemma mapM_int_bits (s : str) :
  forallb is_bin s = true ->
  mapM (fun c => int_of_str [c] 10) s = Ok (map bitval s).
Proof.
  induction s as [|c t IH]; intros H; [reflexivity|].
  cbn [forallb] in H. apply andb_true_iff in H; destruct H as [Hc Ht].
  cbn [mapM map]. rewrite int_of_digit, bind_Ok, IH by assumption.
  reflexivity.
Qed.

Lemma map_bitval_bits (s : str) : forallb is_bit (map bitval s) = true.
Proof.
  induction s as [|c t IH]; [reflexivity|].
  cbn [map forallb]. rewrite bitval_bit, IH. reflexivity.
Qed.

Lemma digits_val_bound (s : str) (acc : Z) :
  forallb is_bin s = true ->
  exists v,
    digits_val 2 acc s = Ok v
    /\ acc * 2 ^ Z.of_nat (length s) <= v
       < (acc + 1) * 2 ^ Z.of_nat (length s).
Proof.
  revert acc; induction s as [|c t IH]; intros acc H.
  - exists acc. split; [reflexivity|]. simpl. lia.
  - cbn [forallb] in H. apply andb_true_iff in H; destruct H as [Hc Ht].
    cbn [length]. rewrite Nat2Z.inj_succ, Z.pow_succ_r by lia.
    destruct (is_bin_cases c Hc); subst c.
    + destruct (IH (acc * 2 + 0) Ht) as (v & E & B).
      exists v. split; [exact E|]. nia.
    + destruct (IH (acc * 2 + 1) Ht) as (v & E & B).
      exists v. split; [exact E|]. nia.
Qed.

Lemma setitem_ok {A : Type} (l : list A) (i : Z) (v : A) :
  0 <= i < Z.of_nat (length l) ->
  setitem l i v = Ok (replace_nth l (Z.to_nat i) v).
Proof.
  intros H. unfold setitem.
  destruct (Z.ltb_spec i 0) as [?|_]; [lia|].
  destruct (Z.leb_spec 0 i) as [_|?]; [|lia].
  destruct (Z.ltb_spec i (Z.of_nat (length l))) as [_|?]; [|lia].
  reflexivity.
Qed.

(** One turn of the cutting loop on a buffer of binary digits that is
    long enough. *)
Lemma cut_step_ok (sizes : list Z) (off : Z) (buf : str)
  (wheels : list (list Z)) (ind : list Z) (i n : Z) :
  index sizes i = Ok n ->
  0 < n ->
  forallb is_bin buf = true ->
  n + 7 <= Z.of_nat (length buf) ->
  0 <= i < Z.of_nat (length wheels) ->
  0 <= i + off < Z.of_nat (length ind) ->
  exists bits d buf',
    cut_step sizes off (buf, wheels, ind) i
    = Ok (buf',
          replace_nth wheels (Z.to_nat i) bits,
          replace_nth ind (Z.to_nat (i + off)) (d mod n))
    /\ pattern_of n bits
    /\ 0 <= d < 128
    /\ forallb is_bin buf' = true
    /\ Z.of_nat (length buf') = Z.of_nat (length buf) - (n + 7).
Proof.
  intros Hn Hpos Hb Hl Hi Hj.
  destruct (digits_val_bound
              (firstn 7 (skipn (Z.to_nat n) buf)) 0
              (forallb_firstn _ _ _ (forallb_skipn _ _ _ Hb)))
    as (d & Ed & Bd).
  assert (L7 : length (firstn 7 (skipn (Z.to_nat n) buf)) = 7%nat)
    by (rewrite length_firstn, length_skipn; lia).
  rewrite L7 in Bd.
  exists (map bitval (firstn (Z.to_nat n) buf)), d,
    (skipn 7 (skipn (Z.to_nat n) buf)).
  split; [|split; [|split; [|split]]].
  - unfold cut_step. rewrite Hn, !bind_Ok.
    rewrite upto_firstn by lia.
    rewrite mapM_int_bits by (apply forallb_firstn, Hb).
    rewrite !bind_Ok, setitem_ok by exact Hi.
    rewrite !bind_Ok. cbv zeta. rewrite from_skipn by lia.
    rewrite (upto_firstn 7) by lia. change (Z.to_nat 7) with 7%nat.
    rewrite int_of_str_bin;
      [ | apply forallb_firstn, forallb_skipn, Hb
        | intros E; rewrite E in L7; discriminate ].
    rewrite Ed, !bind_Ok. unfold modulo.
    destruct (Z.eqb_spec n 0) as [?|_]; [lia|].
    rewrite !bind_Ok, setitem_ok by exact Hj.
    rewrite !bind_Ok, (from_skipn 7) by lia. reflexivity.
  - split; [|apply map_bitval_bits].
    rewrite length_map, length_firstn. lia.
  - change (2 ^ Z.of_nat 7) with 128 in Bd. lia.
  - apply forallb_skipn, forallb_skipn, Hb.
  - rewrite !length_skipn. lia.
Qed.

Ltac cut_turn n :=
  match goal with
  | |- context [cut_step ?sz ?off (?buf, ?ws, ?ind) ?i] =>
      let b := fresh "b" in
      let d := fresh "d" in
      let buf' := fresh "buf" in
      let E := fresh "E" in
      let P := fresh "P" in
      let D := fresh "D" in
      let B := fresh "B" in
      let L := fresh "L" in
      destruct (cut_step_ok sz off buf ws ind i n)
        as (b & d & buf' & E & P & D & B & L);
      [ reflexivity | assumption | assumption
      | lia | simpl length; lia | simpl length; lia | ];
      rewrite E, bind_Ok; clear E;
      repeat match goal with
             | |- context [Z.to_nat ?z] =>
                 let v := eval vm_compute in (Z.to_nat z) in
                 change (Z.to_nat z) with v
             end;
      cbn [replace_nth]
  end.

(** The loop that cuts the X wheels: five turns, writing the entries 0 to
    4 of the indicator. *)
Lemma cut_loop_X (n0 n1 n2 n3 n4 : Z) (buf : str)
  (w0 w1 w2 w3 w4 : list Z) (i0 i1 i2 i3 i4 i5 i6 i7 i8 i9 : Z) :
  0 < n0 -> 0 < n1 -> 0 < n2 -> 0 < n3 -> 0 < n4 ->
  forallb is_bin buf = true ->
  n0 + n1 + n2 + n3 + n4 + 35 <= Z.of_nat (length buf) ->
  exists b0 b1 b2 b3 b4 d0 d1 d2 d3 d4 buf',
    foldM (cut_step [n0; n1; n2; n3; n4] 0) (range 5)
          (buf, [w0; w1; w2; w3; w4],
           [i0; i1; i2; i3; i4; i5; i6; i7; i8; i9])
    = Ok (buf', [b0; b1; b2; b3; b4],
          [d0 mod n0; d1 mod n1; d2 mod n2; d3 mod n3; d4 mod n4;
           i5; i6; i7; i8; i9])
    /\ Forall2 pattern_of [n0; n1; n2; n3; n4] [b0; b1; b2; b3; b4]
    /\ Forall (fun d => 0 <= d < 128) [d0; d1; d2; d3; d4]
    /\ forallb is_bin buf' = true
    /\ Z.of_nat (length buf')
       = Z.of_nat (length buf) - (n0 + n1 + n2 + n3 + n4 + 35).
Proof.
  intros H0 H1 H2 H3 H4 Hb Hl.
  change (range 5) with [0; 1; 2; 3; 4]. cbn [foldM].
  cut_turn n0. cut_turn n1. cut_turn n2. cut_turn n3. cut_turn n4.
  exists b, b0, b1, b2, b3, d, d0, d1, d2, d3, buf4.
  split; [reflexivity|].
  split; [repeat (apply Forall2_cons; [assumption|]); apply Forall2_nil|].
  split; [repeat constructor; lia|]. split; [assumption | lia].
Qed.

(** The loop that cuts the S wheels: five turns, writing the entries 5 to
    9 of the indicator. *)
Lemma cut_loop_S (n0 n1 n2 n3 n4 : Z) (buf : str)
  (w0 w1 w2 w3 w4 : list Z) (i0 i1 i2 i3 i4 i5 i6 i7 i8 i9 : Z) :
  0 < n0 -> 0 < n1 -> 0 < n2 -> 0 < n3 -> 0 < n4 ->
  forallb is_bin buf = true ->
  n0 + n1 + n2 + n3 + n4 + 35 <= Z.of_nat (length buf) ->
  exists b0 b1 b2 b3 b4 d0 d1 d2 d3 d4 buf',
    foldM (cut_step [n0; n1; n2; n3; n4] 5) (range 5)
          (buf, [w0; w1; w2; w3; w4],
           [i0; i1; i2; i3; i4; i5; i6; i7; i8; i9])
    = Ok (buf', [b0; b1; b2; b3; b4],
          [i0; i1; i2; i3; i4;
           d0 mod n0; d1 mod n1; d2 mod n2; d3 mod n3; d4 mod n4])
    /\ Forall2 pattern_of [n0; n1; n2; n3; n4] [b0; b1; b2; b3; b4]
    /\ Forall (fun d => 0 <= d < 128) [d0; d1; d2; d3; d4]
    /\ forallb is_bin buf' = true
    /\ Z.of_nat (length buf')
       = Z.of_nat (length buf) - (n0 + n1 + n2 + n3 + n4 + 35).
Proof.
  intros H0 H1 H2 H3 H4 Hb Hl.
  change (range 5) with [0; 1; 2; 3; 4]. cbn [foldM].
  cut_turn n0. cut_turn n1. cut_turn n2. cut_turn n3. cut_turn n4.
  exists b, b0, b1, b2, b3, d, d0, d1, d2, d3, buf4.
  split; [reflexivity|].
  split; [repeat (apply Forall2_cons; [assumption|]); apply Forall2_nil|].
  split; [repeat constructor; lia|]. split; [assumption | lia].
Qed.

(** The loop that deals the shuffled sizes: the X wheels get the last, the
    third last, ... and the S wheels the others. *)
Lemma deal_ok (a0 a1 a2 a3 a4 a5 a6 a7 a8 a9 : Z) :
  foldM deal_step (range 5)
        ([a0; a1; a2; a3; a4; a5; a6; a7; a8; a9], [], [])
  = Ok ([], [a9; a7; a5; a3; a1], [a8; a6; a4; a2; a0]).
Proof. reflexivity. Qed.

Lemma bin_pos_length (p : positive) (n : nat) :
  Z.pos p < 2 ^ Z.of_nat n -> (length (bin_pos p) <= n)%nat.
Proof.
  revert n; induction p as [q IH|q IH|]; intros n H.
  - destruct n as [|m]; [simpl in H; lia|].
    rewrite Nat2Z.inj_succ, Z.pow_succ_r in H by lia.
    cbn [bin_pos]. rewrite length_app. simpl length.
    assert (Hq : (length (bin_pos q) <= m)%nat) by (apply IH; lia). lia.
  - destruct n as [|m]; [simpl in H; lia|].
    rewrite Nat2Z.inj_succ, Z.pow_succ_r in H by lia.
    cbn [bin_pos]. rewrite length_app. simpl length.
    assert (Hq : (length (bin_pos q) <= m)%nat) by (apply IH; lia). lia.
  - destruct n as [|m]; [simpl in H; lia|]. simpl. lia.
Qed.

(** The random buffer: 700 binary digits. *)
Lemma randombuf_ok (g : Z) :
  0 <= g < 2 ^ 700 ->
  forallb is_bin (format_b 700 g) = true
  /\ length (format_b 700 g) = 700%nat.
Proof.
  intros H. unfold format_b.
  destruct (Z.ltb_spec g 0) as [?|_]; [lia|]. split.
  - apply zfill_bin, bin_abs_bin.
  - rewrite zfill_length. apply Nat.max_l.
    destruct g as [|p|p]; [simpl; lia | | lia].
    apply bin_pos_length. change (Z.of_nat 700) with 700. lia.
Qed.

Lemma zsum_permutation (l l' : list Z) :
  Permutation l l' -> zsum l = zsum l'.
Proof.
  induction 1; unfold zsum in *; simpl; lia.
Qed.

Ltac split_at a r :=
  lazymatch r with
  | a :: ?t => constr:((@nil Z, t))
  | ?b :: ?t =>
      lazymatch split_at a t with
      | (?l1, ?l2) => constr:((b :: l1, l2))
      end
  end.

Ltac perm_solve :=
  lazymatch goal with
  | |- Permutation [] [] => apply perm_nil
  | |- Permutation (?a :: ?l) ?r =>
      lazymatch split_at a r with
      | (?l1, ?l2) =>
          change r with (l1 ++ a :: l2);
          apply Permutation_cons_app; cbn [app]; perm_solve
      end
  end.

Lemma Wheel_Size_NoDup : NoDup Wheel_Size.
Proof.
  unfold Wheel_Size.
  repeat (constructor; [simpl; lia|]). constructor.
Qed.

Lemma indicator_of_mod (n d : Z) :
  0 < n -> 0 <= d < 128 -> indicator_of n (d mod n).
Proof.
  intros Hn Hd. split; [apply Z.mod_pos_bound; exact Hn|].
  exists d; auto.
Qed.

(** C8. Key generation, whatever the random source draws: the five X
    lengths and the five S lengths together are a permutation of the ten
    candidate lengths, none twice and none left out; every wheel pattern
    has the length of its wheel and holds bits only; every indicator entry
    is a 7-bit draw reduced modulo the length of its wheel, and so lies
    below that length. *)
Theorem C8_keygen_valid (rs : RandomSource) :
  lawful rs ->
  exists km,
    keygen rs = Ok km
    /\ length (X_sizes km) = 5%nat
    /\ length (S_sizes km) = 5%nat
    /\ Permutation (X_sizes km ++ S_sizes km) Wheel_Size
    /\ NoDup (X_sizes km ++ S_sizes km)
    /\ Forall2 pattern_of (X_sizes km ++ S_sizes km)
                          (X_wheels km ++ S_wheels km)
    /\ Forall2 indicator_of (X_sizes km ++ S_sizes km) (indicator km).
Proof.
  intros [Hsh Hbits].
  remember (shuffle rs 2 (shuffle rs 1 (shuffle rs 0 Wheel_Size)))
    as sizes eqn:Es.
  assert (Hperm : Permutation Wheel_Size sizes).
  { subst sizes. eapply perm_trans; [apply (Hsh 0%nat)|].
    eapply perm_trans; [apply (Hsh 1%nat) | apply (Hsh 2%nat)]. }
  assert (Hlen : length sizes = 10%nat)
    by (rewrite <- (Permutation_length Hperm); reflexivity).
  assert (Hpos : Forall (fun n => 0 < n) sizes).
  { eapply Permutation_Forall; [exact Hperm|].
    unfold Wheel_Size. repeat (constructor; [lia|]). constructor. }
  assert (Hsum : zsum sizes = 629)
    by (rewrite <- (zsum_permutation _ _ Hperm); reflexivity).
  destruct sizes
    as [|a0 [|a1 [|a2 [|a3 [|a4 [|a5 [|a6 [|a7 [|a8 [|a9 [|? ?]]]]]]]]]]];
    try discriminate.
  clear Hlen. rewrite !Forall_cons_iff in Hpos.
  destruct Hpos as (P0 & P1 & P2 & P3 & P4 & P5 & P6 & P7 & P8 & P9 & _).
  unfold zsum in Hsum; cbn [fold_right] in Hsum.
  destruct (randombuf_ok _ (Hbits 700 ltac:(lia))) as [Bb Lb].
  destruct (cut_loop_X a9 a7 a5 a3 a1 (format_b 700 (getrandbits rs 700))
              [] [] [] [] [] 0 0 0 0 0 0 0 0 0 0)
    as (x0 & x1 & x2 & x3 & x4 & d0 & d1 & d2 & d3 & d4 & buf1
        & E1 & PX & DX & B1 & L1);
    [lia | lia | lia | lia | lia | exact Bb | rewrite Lb; lia |].
  destruct (cut_loop_S a8 a6 a4 a2 a0 buf1 [] [] [] [] []
              (d0 mod a9) (d1 mod a7) (d2 mod a5) (d3 mod a3) (d4 mod a1)
              0 0 0 0 0)
    as (s0 & s1 & s2 & s3 & s4 & d5 & d6 & d7 & d8 & d9 & buf2
        & E2 & PS & DS & B2 & L2);
    [lia | lia | lia | lia | lia | exact B1 | rewrite L1, Lb; lia |].
  unfold keygen. cbv zeta. rewrite <- Es, deal_ok, bind_Ok.
  cbv beta iota. rewrite E1, bind_Ok. cbv beta iota.
  rewrite E2, bind_Ok. cbv beta iota.
  eexists. split; [reflexivity|].
  cbn [X_sizes S_sizes X_wheels S_wheels indicator app].
  split; [reflexivity|]. split; [reflexivity|].
  assert (Hp : Permutation [a9; a7; a5; a3; a1; a8; a6; a4; a2; a0]
                           Wheel_Size).
  { apply perm_trans with [a0; a1; a2; a3; a4; a5; a6; a7; a8; a9];
      [perm_solve | apply Permutation_sym, Hperm]. }
  split; [exact Hp|].
  split; [apply (Permutation_NoDup (Permutation_sym Hp)),
            Wheel_Size_NoDup|].
  rewrite !Forall_cons_iff in DX, DS.
  destruct DX as (D0 & D1 & D2 & D3 & D4 & _).
  destruct DS as (D5 & D6 & D7 & D8 & D9 & _).
  split.
  - exact (Forall2_app PX PS).
  - repeat (apply Forall2_cons; [apply indicator_of_mod; assumption|]).
    apply Forall2_nil.
Qed.

Lemma demo_rs_lawful : lawful demo_rs.
Proof.
  split.
  - intros k l. apply Permutation_rev.
  - intros k Hk. simpl.
    assert (0 < 2 ^ k) by (apply Z.pow_pos_nonneg; lia).
    split; [apply Z.div_pos; lia | apply Z.div_lt_upper_bound; lia].
Qed.

Lemma C8_keygen_valid_witness :
  lawful demo_rs
  /\ exists km,
       keygen demo_rs = Ok km
       /\ length (X_sizes km) = 5%nat
       /\ length (S_sizes km) = 5%nat
       /\ Permutation (X_sizes km ++ S_sizes km) Wheel_Size
       /\ NoDup (X_sizes km ++ S_sizes km)
       /\ Forall2 pattern_of (X_sizes km ++ S_sizes km)
                             (X_wheels km ++ S_wheels km)
       /\ Forall2 indicator_of (X_sizes km ++ S_sizes km) (indicator km).
Proof.
  split; [exact demo_rs_lawful|].
  apply (C8_keygen_valid demo_rs); exact demo_rs_lawful.
Defined.

(** * Further properties *)

(** ** The codec on arbitrary input *)

Lemma entry_land (b : Z) : entry (Z.land b MSX7) = entry b.
Proof.
  unfold entry. rewrite <- Z.land_assoc, Z.land_diag. reflexivity.
Qed.

Lemma emit_land (figs : bool) (b : Z) :
  emit figs (Z.land b MSX7) = emit figs b.
Proof. unfold emit. rewrite entry_land. reflexivity. Qed.

Lemma decode1_land (figs : bool) (c : Z) :
  decode1 figs (Z.land c MSX5) = decode1 figs c.
Proof.
  unfold decode1. rewrite <- Z.land_assoc, Z.land_diag. reflexivity.
Qed.

Lemma units_land (figs : bool) (s : list Z) :
  units figs (map (fun b => Z.land b MSX7) s) = units figs s.
Proof.
  revert figs; induction s as [|b t IH]; intros figs; [reflexivity|].
  cbn [map units]. rewrite emit_land, IH. reflexivity.
Qed.

Lemma decoded_land (figs : bool) (us : list Z) :
  decoded figs (map (fun c => Z.land c MSX5) us) = decoded figs us.
Proof.
  revert figs; induction us as [|c t IH]; intros figs; [reflexivity|].
  cbn [map decoded]. rewrite decode1_land, IH. reflexivity.
Qed.

(** X1. The codec looks at the low seven bits of a byte and at the low five
    bits of a unit only: bytes that agree on them are encoded alike, units
    that agree on them are decoded alike. *)
Theorem codec_masks (s us : list Z) :
  ascii2tty (map (fun b => Z.land b MSX7) s) = ascii2tty s
  /\ tty2ascii (map (fun c => Z.land c MSX5) us) = tty2ascii us.
Proof.
  split.
  - rewrite !ascii2tty_units, units_land.
    destruct s as [|b t]; [reflexivity|].
    cbn [map first_shift]. rewrite entry_land. reflexivity.
  - rewrite !tty2ascii_decoded, decoded_land. reflexivity.
Qed.

Lemma bytes7_enumerated (P : Z -> bool) :
  forallb P (range 128) = true -> forall b, P (Z.land b MSX7) = true.
Proof.
  intros H b. rewrite forallb_forall in H.
  apply H, in_range. exact (land_MSX7_bound b).
Qed.

Lemma units5_enumerated (P : Z -> bool) :
  forallb P (range 32) = true -> forall c, P (Z.land c MSX5) = true.
Proof.
  intros H c. rewrite forallb_forall in H.
  apply H, in_range. exact (land_MSX5_bound c).
Qed.

(** X2. The unit of a mapped byte is never one of the two shift codes. *)
Theorem data_units_are_not_shifts (b : Z) :
  absent b = false ->
  is_shift (Z.land (entry b) MSX5) = false.
Proof.
  intros H.
  pose proof (bytes7_enumerated
                (fun b => absent b
                          || negb (is_shift (Z.land (entry b) MSX5)))
                ltac:(vm_compute; reflexivity) b) as E.
  cbv beta in E. unfold absent in E, H. rewrite entry_land, H in E.
  simpl in E. apply negb_true_iff in E. exact E.
Qed.

Lemma data_units_are_not_shifts_witness :
  absent 65 = false /\ is_shift (Z.land (entry 65) MSX5) = false.
Proof.
  split; [reflexivity|].
  apply (data_units_are_not_shifts 65); reflexivity.
Defined.

Lemma emit_units (figs : bool) (b : Z) :
  forallb is_unit (snd (emit figs b)) = true
  /\ (length (snd (emit figs b)) <= 2)%nat.
Proof.
  pose proof (land_MSX5_bound (entry b)) as Hb.
  assert (Hu : is_unit (Z.land (entry b) MSX5) = true)
    by (apply is_unit_intro; lia).
  unfold emit.
  destruct (entry b =? INVC); [split; [reflexivity | simpl; lia]|].
  destruct (truthy (Z.land (entry b) ETHR_F));
    [cbn [snd forallb length]; rewrite Hu; split; [reflexivity | lia]|].
  destruct (truthy (Z.land (entry b) FIGS_F)), figs;
    cbn [snd app forallb length]; rewrite Hu; split;
    solve [reflexivity | lia].
Qed.

Lemma units_units (s : list Z) (figs : bool) :
  forallb is_unit (units figs s) = true
  /\ (length (units figs s) <= 2 * length s)%nat.
Proof.
  revert figs; induction s as [|b t IH]; intros figs;
    [split; [reflexivity | simpl; lia]|].
  cbn [units]. rewrite forallb_app, length_app.
  destruct (emit_units figs b) as [U L].
  destruct (IH (fst (emit figs b))) as [U' L'].
  rewrite U, U'. split; [reflexivity | simpl length; lia].
Qed.

Lemma INVC_either : truthy (Z.land INVC ETHR_F) = true.
Proof. reflexivity. Qed.

(** X3. [ascii2tty] raises on no input, whatever integers it is given; what it
    returns are units in [0,31], at most two for each input byte, the
    initial shift included. *)
Theorem ascii2tty_total (s : list Z) :
  exists us,
    ascii2tty s = Ok us
    /\ forallb is_unit us = true
    /\ (length us <= 2 * length s)%nat.
Proof.
  eexists. split; [apply ascii2tty_units|].
  rewrite forallb_app, length_app.
  destruct s as [|b t]; [split; [reflexivity | simpl; lia]|].
  cbn [first_shift units].
  destruct (units_units t (fst (emit (fst (first_shift (b :: t))) b)))
    as [Ut Lt].
  destruct (emit_units (fst (first_shift (b :: t))) b) as [Ub Lb].
  cbn [first_shift] in *.
  rewrite forallb_app, length_app, Ub, Ut.
  destruct (truthy (Z.land (entry b) ETHR_F)) eqn:Ee;
    [split; [reflexivity | cbn [fst snd length] in *; lia]|].
  assert (Hinv : (entry b =? INVC) = false).
  { destruct (Z.eqb_spec (entry b) INVC) as [E|]; [|reflexivity].
    rewrite E, INVC_either in Ee. discriminate. }
  destruct (truthy (Z.land (entry b) FIGS_F)) eqn:Ef;
    cbn [fst snd forallb length andb] in *;
    (split; [reflexivity|]);
    clear Ub Lb; unfold emit; rewrite Hinv, Ee, Ef;
    cbn [snd app length fst] in *.
  - unfold emit in Lt. rewrite Hinv, Ee, Ef in Lt.
    cbn [fst] in Lt. lia.
  - unfold emit in Lt. rewrite Hinv, Ee, Ef in Lt.
    cbn [fst] in Lt. lia.
Qed.

Lemma decode1_text (figs : bool) (c : Z) :
  exists l,
    snd (decode1 figs c) = map Chr l
    /\ length l = (if is_shift (Z.land c MSX5) then 0 else 1)%nat.
Proof.
  pose proof (units5_enumerated
                (fun k =>
                   forallb
                     (fun figs =>
                        match snd (decode1 figs k) with
                        | [] => is_shift k
                        | [Chr _] => negb (is_shift k)
                        | _ => false
                        end) [true; false])
                ltac:(vm_compute; reflexivity) c) as E.
  cbv beta in E. rewrite forallb_forall in E.
  specialize (E figs ltac:(destruct figs; simpl; auto)).
  rewrite decode1_land in E.
  destruct (snd (decode1 figs c)) as [|[a|n] [|? ?]]; try discriminate.
  - exists []. rewrite E. auto.
  - exists [a]. apply negb_true_iff in E. rewrite E. auto.
Qed.

Lemma decoded_text (us : list Z) (figs : bool) :
  exists l,
    decoded figs us = map Chr l
    /\ length l
       = length (filter (fun c => negb (is_shift (Z.land c MSX5))) us).
Proof.
  revert figs; induction us as [|c t IH]; intros figs.
  - exists []. auto.
  - destruct (decode1_text figs c) as (l1 & E1 & L1).
    destruct (IH (fst (decode1 figs c))) as (l2 & E2 & L2).
    exists (l1 ++ l2). cbn [decoded filter].
    rewrite E1, E2, map_app, length_app, L1, L2. split; [reflexivity|].
    destruct (is_shift (Z.land c MSX5)); reflexivity.
Qed.

(** X4. [tty2ascii] raises on no input, whatever code points it is given: the
    integers that stand in the decode tables at the places of the two
    shift codes are never appended to the result.  It returns one
    character for each unit that is not a shift code. *)
Theorem tty2ascii_total (us : list Z) :
  exists text,
    tty2ascii us = Ok text
    /\ length text
       = length (filter (fun c => negb (is_shift (Z.land c MSX5))) us).
Proof.
  destruct (decoded_text us false) as (l & E & L).
  exists l. rewrite tty2ascii_decoded, E, join_Chr. auto.
Qed.

Lemma table_char_land (b : Z) : table_char (Z.land b MSX7) = table_char b.
Proof. unfold table_char. rewrite entry_land. reflexivity. Qed.

Lemma byte_decodes_all (figs : bool) (b : Z) : byte_decodes figs b = true.
Proof.
  pose proof (bytes7_enumerated
                (fun b => byte_decodes true b && byte_decodes false b)
                ltac:(vm_compute; reflexivity) b) as E.
  cbv beta in E. unfold byte_decodes in *.
  rewrite !emit_land, table_char_land in E.
  apply andb_true_iff in E. destruct figs; tauto.
Qed.

Lemma decoded_units_all (s : list Z) (figs : bool) :
  decoded figs (units figs s) = map Chr (flat_map table_char s).
Proof.
  revert figs; induction s as [|b t IH]; intros figs; [reflexivity|].
  cbn [units flat_map]. rewrite decoded_app, map_app.
  pose proof (byte_decodes_all figs b) as R. unfold byte_decodes in R.
  apply andb_true_iff in R; destruct R as [Rs Rc].
  apply Bool.eqb_prop in Rs. rewrite Rs, IH. f_equal.
  destruct (decoded figs (snd (emit figs b))) as [|[c|n] [|? ?]],
    (table_char b) as [|c' [|? ?]]; try discriminate; [reflexivity|].
  apply Ascii.eqb_eq in Rc. subst c'. reflexivity.
Qed.

(** X5. Decoding what [ascii2tty] encoded, for every input: each byte comes
    back as the character the decode table of its shift holds at its unit,
    and a byte absent from the mapping as nothing.  Coder and decoder never
    disagree on the shift. *)
Theorem codec_decode_encode (s : list Z) :
  exists us,
    ascii2tty s = Ok us
    /\ tty2ascii us = Ok (flat_map table_char s).
Proof.
  eexists. split; [apply ascii2tty_units|].
  rewrite tty2ascii_decoded, decoded_first_shift, decoded_units_all.
  apply join_Chr.
Qed.

(** ** The transform as a bijection *)

(** X6. The five swaps of [decrypt_char] undo the five swaps of [encrypt_char]
    taken under the same S bank value, and the other way round, on every
    string of five characters and for every value of the S bank. *)
Theorem swaps_inverse (s : Z) (p0 p1 p2 p3 p4 : ascii) :
  swaps_dec s (swaps_enc s [p0; p1; p2; p3; p4]) = [p0; p1; p2; p3; p4]
  /\ swaps_enc s (swaps_dec s [p0; p1; p2; p3; p4])
     = [p0; p1; p2; p3; p4].
Proof.
  unfold swaps_enc, swaps_dec, SFM_T52a.swap_if.
  destruct (truthy (Z.land s 1)),
    (truthy (Z.land (Z.shiftr s 1) 1)),
    (truthy (Z.land (Z.shiftr s 2) 1)),
    (truthy (Z.land (Z.shiftr s 3) 1)),
    (truthy (Z.land (Z.shiftr s 4) 1)); split; reflexivity.
Qed.

Lemma swaps_roundtrip_rev (s c : Z) :
  is_unit s = true -> is_unit c = true ->
  exists v,
    int_of_str (swaps_dec s (format_b 5 c)) 2 = Ok v
    /\ is_unit v = true
    /\ int_of_str (swaps_enc s (format_b 5 v)) 2 = Ok c.
Proof.
  intros Hs Hc.
  pose proof
    (units_enumerated
       (fun s c =>
          match int_of_str (swaps_dec s (format_b 5 c)) 2 with
          | Ok v =>
              is_unit v
              && match int_of_str (swaps_enc s (format_b 5 v)) 2 with
                 | Ok c' => c' =? c
                 | Raise _ => false
                 end
          | Raise _ => false
          end)) as H.
  specialize (H ltac:(vm_compute; reflexivity) s c Hs Hc). cbv beta in H.
  destruct (int_of_str (swaps_dec s (format_b 5 c)) 2) as [v|];
    [|discriminate].
  apply andb_true_iff in H; destruct H as [Hv H].
  exists v; repeat split; auto.
  destruct (int_of_str (swaps_enc s (format_b 5 v)) 2) as [c'|];
    [|discriminate].
  f_equal; lia.
Qed.

(** X7. [encrypt_char] also undoes [decrypt_char]: in a well-formed machine
    the transform of one step is a bijection of the units. *)
Theorem decrypt_then_encrypt (e : SFM_T52a.t) (c : Z) :
  engine_ok e = true ->
  is_unit c = true ->
  exists v,
    SFM_T52a.decrypt_char c e = (Ok v, engine_stepped e)
    /\ is_unit v = true
    /\ SFM_T52a.encrypt_char v e = (Ok c, engine_stepped e).
Proof.
  intros He Hc.
  pose proof (SFM_advance_engine_ok e He) as Hadv.
  apply engine_ok_inv in He; destruct He as [HX HS].
  destruct (WheelBank_get_val_unit _ HX) as (x & Ex & Ux).
  destruct (WheelBank_get_val_unit _ HS) as (s & Es & Us).
  destruct (swaps_roundtrip_rev s c Us Hc) as (v & Dv & Uv & Ev).
  exists (Z.lxor v x).
  rewrite (decrypt_char_run e _ c x s Ex Es Hadv), Dv.
  rewrite (encrypt_char_run e _ (Z.lxor v x) x s Ex Es Hadv).
  rewrite lxor_cancel, Ev. auto using lxor_unit.
Qed.

Lemma decrypt_then_encrypt_witness :
  engine_ok demo = true
  /\ is_unit 12 = true
  /\ exists v,
       SFM_T52a.decrypt_char 12 demo = (Ok v, engine_stepped demo)
       /\ is_unit v = true
       /\ SFM_T52a.encrypt_char v demo = (Ok 12, engine_stepped demo).
Proof.
  split; [reflexivity|]. split; [reflexivity|].
  apply (decrypt_then_encrypt demo 12); reflexivity.
Defined.

(** ** Streams and the position of the wheels *)

Lemma times_advance_S (n : nat) (e : SFM_T52a.t) :
  engine_ok e = true ->
  times (S n) SFM_T52a.advance e
  = times n SFM_T52a.advance (engine_stepped e).
Proof.
  intros He. cbn [times].
  rewrite (sbind_Ok _ _ _ _ _ (SFM_advance_engine_ok e He)). reflexivity.
Qed.

Lemma stream_run (e : SFM_T52a.t) (u : list Z) :
  engine_ok e = true ->
  forallb is_unit u = true ->
  exists ct pt,
    SFM_T52a.encrypt u e
    = (Ok ct, snd (times (length u) SFM_T52a.advance e))
    /\ SFM_T52a.decrypt u e
       = (Ok pt, snd (times (length u) SFM_T52a.advance e))
    /\ length ct = length u /\ forallb is_unit ct = true
    /\ length pt = length u /\ forallb is_unit pt = true.
Proof.
  revert e; induction u as [|c u IH]; intros e He Hu.
  - exists [], []. repeat split.
  - cbn [forallb] in Hu. apply andb_true_iff in Hu; destruct Hu as [Hc Hu].
    destruct (encrypt_char_unit e c He Hc) as (v & Ev & Uv & _).
    destruct (decrypt_char_unit e c He Hc) as (v' & Dv & Uv').
    destruct (IH (engine_stepped e) (engine_stepped_ok e He) Hu)
      as (ct & pt & Ect & Dpt & Lct & Uct & Lpt & Upt).
    exists (v :: ct), (v' :: pt).
    cbn [length]. rewrite times_advance_S by exact He.
    cbn [SFM_T52a.encrypt SFM_T52a.decrypt]. unfold ord.
    rewrite (sbind_Ok _ _ _ _ _ Ev).
    rewrite (sbind_Ok _ _ _ (engine_stepped e) v)
      by (unfold reads; rewrite chr_unit by exact Uv; reflexivity).
    rewrite (sbind_Ok _ _ _ _ _ Ect).
    rewrite (sbind_Ok _ _ _ _ _ Dv).
    rewrite (sbind_Ok _ _ _ (engine_stepped e) v')
      by (unfold reads; rewrite chr_unit by exact Uv'; reflexivity).
    rewrite (sbind_Ok _ _ _ _ _ Dpt).
    cbn [length forallb]. rewrite Lct, Lpt, Uv, Uv', Uct, Upt.
    repeat split.
Qed.

(** X8. Encrypting or decrypting a string of units gives a string of units of
    the same length and leaves the machine where as many calls of
    [advance] leave it: the position of the wheels depends on the number
    of units only, never on the units. *)
Theorem stream_keeps_step (e : SFM_T52a.t) (u : list Z) :
  engine_ok e = true ->
  forallb is_unit u = true ->
  exists ct pt,
    SFM_T52a.encrypt u e
    = (Ok ct, snd (times (length u) SFM_T52a.advance e))
    /\ SFM_T52a.decrypt u e
       = (Ok pt, snd (times (length u) SFM_T52a.advance e))
    /\ length ct = length u /\ forallb is_unit ct = true
    /\ length pt = length u /\ forallb is_unit pt = true.
Proof. exact (stream_run e u). Qed.

Lemma stream_keeps_step_witness :
  engine_ok demo = true
  /\ forallb is_unit [3; 30; 11] = true
  /\ exists ct pt,
       SFM_T52a.encrypt [3; 30; 11] demo
       = (Ok ct, snd (times (length [3; 30; 11]) SFM_T52a.advance demo))
       /\ SFM_T52a.decrypt [3; 30; 11] demo
          = (Ok pt, snd (times (length [3; 30; 11]) SFM_T52a.advance demo))
       /\ length ct = length [3; 30; 11] /\ forallb is_unit ct = true
       /\ length pt = length [3; 30; 11] /\ forallb is_unit pt = true.
Proof.
  split; [reflexivity|]. split; [reflexivity|].
  apply (stream_keeps_step demo [3; 30; 11]); reflexivity.
Defined.

(** ** Calls that raise *)

(** X10. On a well-formed machine [encrypt_char] advances the wheels whatever
    its input is, also when it then raises on the string it has built;
    [decrypt_char] parses its string before it advances, and leaves the
    wheels where they are when it raises. *)
Theorem raise_and_advance (e : SFM_T52a.t) (c : Z) :
  engine_ok e = true ->
  snd (SFM_T52a.encrypt_char c e) = engine_stepped e
  /\ (forall x, fst (SFM_T52a.decrypt_char c e) = Raise x ->
                snd (SFM_T52a.decrypt_char c e) = e)
  /\ (forall v, fst (SFM_T52a.decrypt_char c e) = Ok v ->
                snd (SFM_T52a.decrypt_char c e) = engine_stepped e).
Proof.
  intros He.
  pose proof (SFM_advance_engine_ok e He) as Hadv.
  apply engine_ok_inv in He; destruct He as [HX HS].
  destruct (WheelBank_get_val_unit _ HX) as (x & Ex & Ux).
  destruct (WheelBank_get_val_unit _ HS) as (s & Es & Us).
  rewrite (encrypt_char_run e _ c x s Ex Es Hadv).
  rewrite (decrypt_char_run e _ c x s Ex Es Hadv).
  split; [reflexivity|].
  destruct (int_of_str (swaps_dec s (format_b 5 c)) 2) as [v|ex];
    split; intros ? H; try reflexivity; discriminate H.
Qed.

Lemma raise_and_advance_witness :
  engine_ok demo = true
  /\ fst (SFM_T52a.encrypt_char (-1) demo) = Raise ValueError
  /\ fst (SFM_T52a.decrypt_char (-1) demo) = Raise ValueError
  /\ snd (SFM_T52a.encrypt_char (-1) demo) = engine_stepped demo
  /\ (forall x, fst (SFM_T52a.decrypt_char (-1) demo) = Raise x ->
                snd (SFM_T52a.decrypt_char (-1) demo) = demo)
  /\ (forall v, fst (SFM_T52a.decrypt_char (-1) demo) = Ok v ->
                snd (SFM_T52a.decrypt_char (-1) demo)
                = engine_stepped demo).
Proof.
  split; [reflexivity|]. split; [reflexivity|]. split; [reflexivity|].
  apply (raise_and_advance demo (-1)); reflexivity.
Defined.

(** ** Banks that cannot be read *)

Lemma index_raises {A : Type} (l : list A) (i : Z) (x : exn) :
  index l i = Raise x -> x = IndexError.
Proof.
  unfold index.
  destruct ((0 <=? (if i <? 0 then i + Z.of_nat (length l) else i))
            && ((if i <? 0 then i + Z.of_nat (length l) else i)
                <? Z.of_nat (length l)));
    [|congruence].
  destruct (nth_error l _); congruence.
Qed.

Lemma index_outside {A : Type} (l : list A) (i : Z) :
  ~ (- Z.of_nat (length l) <= i < Z.of_nat (length l)) ->
  index l i = Raise IndexError.
Proof.
  intros H. unfold index.
  destruct (Z.ltb_spec i 0) as [Hi|Hi].
  - destruct (Z.leb_spec 0 (i + Z.of_nat (length l))) as [?|?];
      [lia | reflexivity].
  - destruct (Z.ltb_spec i (Z.of_nat (length l))) as [?|?]; [lia|].
    rewrite andb_false_r. reflexivity.
Qed.

Lemma mapM_IndexError {A B : Type} (f : A -> res B) (l : list A) (a : A) :
  (forall a' x, f a' = Raise x -> x = IndexError) ->
  In a l -> f a = Raise IndexError ->
  mapM f l = Raise IndexError.
Proof.
  intros Hf. induction l as [|h t IH]; intros Hin Ha; [destruct Hin|].
  cbn [mapM]. destruct (f h) as [b|x] eqn:Eh.
  - destruct Hin as [->|Hin]; [congruence|].
    rewrite bind_Ok, IH by assumption. reflexivity.
  - rewrite (Hf _ _ Eh). reflexivity.
Qed.

Lemma wheel_read_raises (ws : list Wheel.t) (i : Z) (x : exn) :
  (w <- index ws i ;; Wheel.get_val w) = Raise x -> x = IndexError.
Proof.
  destruct (index ws i) as [w|y] eqn:E; cbn [bind].
  - apply index_raises.
  - intros H; injection H as <-. eapply index_raises, E.
Qed.

Lemma short_bank_raises (b : WheelBank.t) :
  (length (WheelBank.wheels b) < 5)%nat ->
  WheelBank.get_val b = Raise IndexError.
Proof.
  intros Hl. unfold WheelBank.get_val.
  rewrite (mapM_IndexError _ _ 4 (wheel_read_raises _));
    [reflexivity | apply in_range; lia |].
  rewrite index_outside by lia. reflexivity.
Qed.

(** X11. [get_val] of a bank raises [IndexError] when the bank has fewer than
    five wheels, and when one of its first five wheels stands at a
    position from which its pattern cannot be read. *)
Theorem get_val_IndexError (b : WheelBank.t) :
  (length (WheelBank.wheels b) < 5)%nat
  \/ (exists i w,
        0 <= i < 5
        /\ nth_error (WheelBank.wheels b) (Z.to_nat i) = Some w
        /\ readable w = false) ->
  WheelBank.get_val b = Raise IndexError.
Proof.
  intros H. unfold WheelBank.get_val.
  assert (E : mapM (fun i => w <- index (WheelBank.wheels b) i ;;
                             Wheel.get_val w) (range 5)
              = Raise IndexError).
  { destruct H as [Hl | (i & w & Hi & Hn & Hr)].
    - apply (mapM_IndexError _ _ 4 (wheel_read_raises _)).
      + apply in_range; lia.
      + rewrite index_outside by lia. reflexivity.
    - apply (mapM_IndexError _ _ i (wheel_read_raises _)).
      + apply in_range; lia.
      + assert (Hlt : (Z.to_nat i < length (WheelBank.wheels b))%nat)
          by (apply nth_error_Some; congruence).
        destruct (index_in_range (WheelBank.wheels b) i ltac:(lia))
          as (w' & Ei & Ni).
        rewrite Ei, bind_Ok. assert (w' = w) by congruence. subst w'.
        unfold Wheel.get_val. apply index_outside.
        unfold readable in Hr. apply andb_false_iff in Hr. lia. }
  rewrite E. reflexivity.
Qed.

Lemma get_val_IndexError_witness :
  ((length (WheelBank.wheels short_bank) < 5)%nat
   \/ (exists i w,
         0 <= i < 5
         /\ nth_error (WheelBank.wheels short_bank) (Z.to_nat i) = Some w
         /\ readable w = false))
  /\ WheelBank.get_val short_bank = Raise IndexError.
Proof.
  assert (H : (length (WheelBank.wheels short_bank) < 5)%nat)
    by (simpl; lia).
  split; [left; exact H|].
  apply (get_val_IndexError short_bank). left; exact H.
Defined.

Lemma bank_raise_stops (e : SFM_T52a.t) (c : Z) :
  (exists x, WheelBank.get_val (SFM_T52a.X_wheels e) = Raise x)
  \/ (exists x, WheelBank.get_val (SFM_T52a.S_wheels e) = Raise x) ->
  (exists x, SFM_T52a.encrypt_char c e = (Raise x, e))
  /\ (exists x, SFM_T52a.decrypt_char c e = (Raise x, e)).
Proof.
  intros H. split.
  - unfold SFM_T52a.encrypt_char.
    destruct (WheelBank.get_val (SFM_T52a.X_wheels e)) as [x0|x] eqn:EX.
    + destruct H as [[x Hx]|[x Hx]]; [discriminate|].
      exists x.
      rewrite (sbind_Ok _ _ e e x0)
        by (rewrite X_val_eq, EX; reflexivity).
      apply sbind_Raise. rewrite S_val_eq, Hx. reflexivity.
    + exists x. apply sbind_Raise. rewrite X_val_eq, EX. reflexivity.
  - unfold SFM_T52a.decrypt_char.
    destruct (WheelBank.get_val (SFM_T52a.S_wheels e)) as [s|x] eqn:ES.
    + destruct H as [[x Hx]|[x Hx]]; [|discriminate].
      do 5 rewrite (sbind_Ok _ _ e e s)
        by (rewrite S_val_eq, ES; reflexivity).
      match goal with
      | |- context [reads (fun _ => int_of_str ?r 2)] =>
          destruct (int_of_str r 2) as [v|ex] eqn:E
      end.
      * exists x. rewrite (sbind_Ok _ _ e e v) by reflexivity.
        apply sbind_Raise. rewrite X_val_eq, Hx. reflexivity.
      * exists ex. apply sbind_Raise. reflexivity.
    + exists x. apply sbind_Raise. rewrite S_val_eq, ES. reflexivity.
Qed.

(** X12. When one of the two banks cannot be read, [encrypt_char] and
    [decrypt_char] both raise and no wheel moves. *)
Theorem unreadable_bank_stops (e : SFM_T52a.t) (c : Z) :
  (exists x, WheelBank.get_val (SFM_T52a.X_wheels e) = Raise x)
  \/ (exists x, WheelBank.get_val (SFM_T52a.S_wheels e) = Raise x) ->
  (exists x, SFM_T52a.encrypt_char c e = (Raise x, e))
  /\ (exists x, SFM_T52a.decrypt_char c e = (Raise x, e)).
Proof. exact (bank_raise_stops e c). Qed.

Lemma unreadable_bank_stops_witness :
  ((exists x, WheelBank.get_val (SFM_T52a.X_wheels overrun) = Raise x)
   \/ (exists x, WheelBank.get_val (SFM_T52a.S_wheels overrun) = Raise x))
  /\ (exists x, SFM_T52a.encrypt_char 7 overrun = (Raise x, overrun))
  /\ (exists x, SFM_T52a.decrypt_char 7 overrun = (Raise x, overrun)).
Proof.
  assert (H : exists x,
             WheelBank.get_val (SFM_T52a.X_wheels overrun) = Raise x)
    by (exists IndexError; reflexivity).
  split; [left; exact H|].
  apply (unreadable_bank_stops overrun 7). left; exact H.
Defined.

(** X14. A negative position no further from the end than the length of the
    pattern is accepted: the wheel reads its pattern from the end, and one
    call of [advance] brings the position inside the pattern. *)
Theorem negative_position (w : Wheel.t) :
  Wheel.wheel_size w = Z.of_nat (length (Wheel.wheel_data w)) ->
  - Wheel.wheel_size w <= Wheel.state w < 0 ->
  exists b w',
    Wheel.get_val w = Ok b
    /\ nth_error (Wheel.wheel_data w)
                 (Z.to_nat (Wheel.state w + Wheel.wheel_size w)) = Some b
    /\ Wheel.advance w = (Ok tt, w')
    /\ position_ok w' = true.
Proof.
  intros Hs Hp.
  assert (Hn : exists b,
             nth_error (Wheel.wheel_data w)
                       (Z.to_nat (Wheel.state w + Wheel.wheel_size w))
             = Some b).
  { destruct (nth_error (Wheel.wheel_data w)
                (Z.to_nat (Wheel.state w + Wheel.wheel_size w)))
      as [b|] eqn:E; [exists b; reflexivity|].
    apply nth_error_None in E. lia. }
  destruct Hn as (b & Hb). exists b, (stepped w).
  repeat split.
  - unfold Wheel.get_val, index. rewrite <- Hs.
    destruct (Z.ltb_spec (Wheel.state w) 0) as [_|?]; [|lia].
    destruct (Z.leb_spec 0 (Wheel.state w + Wheel.wheel_size w))
      as [_|?]; [|lia].
    destruct (Z.ltb_spec (Wheel.state w + Wheel.wheel_size w)
                (Wheel.wheel_size w)) as [_|?]; [|lia].
    cbn [andb]. rewrite Hb. reflexivity.
  - exact Hb.
  - unfold Wheel.advance, modulo.
    destruct (Z.eqb_spec (Wheel.wheel_size w) 0) as [?|_]; [lia|].
    reflexivity.
  - unfold position_ok, stepped; cbn.
    pose proof (Z.mod_pos_bound (Wheel.state w + 1) (Wheel.wheel_size w)).
    lia.
Qed.

Lemma negative_position_witness :
  Wheel.wheel_size (Wheel.init [0; 1; 1] (-1))
  = Z.of_nat (length (Wheel.wheel_data (Wheel.init [0; 1; 1] (-1))))
  /\ - Wheel.wheel_size (Wheel.init [0; 1; 1] (-1))
     <= Wheel.state (Wheel.init [0; 1; 1] (-1)) < 0
  /\ exists b w',
       Wheel.get_val (Wheel.init [0; 1; 1] (-1)) = Ok b
       /\ nth_error (Wheel.wheel_data (Wheel.init [0; 1; 1] (-1)))
            (Z.to_nat (Wheel.state (Wheel.init [0; 1; 1] (-1))
                       + Wheel.wheel_size (Wheel.init [0; 1; 1] (-1))))
          = Some b
       /\ Wheel.advance (Wheel.init [0; 1; 1] (-1)) = (Ok tt, w')
       /\ position_ok w' = true.
Proof.
  split; [reflexivity|]. split; [simpl; lia|].
  apply (negative_position (Wheel.init [0; 1; 1] (-1)));
    [reflexivity | simpl; lia].
Defined.

(** ** Pattern entries that are no bits *)

Lemma digits_val_bad (s : str) (c : ascii) (acc : Z) :
  In c s -> is_bin c = false -> digits_val 2 acc s = Raise ValueError.
Proof.
  revert acc; induction s as [|h t IH]; intros acc Hin Hc; [destruct Hin|].
  cbn [digits_val]. destruct (digit_val h) as [d|] eqn:Ed; [|reflexivity].
  destruct (Z.ltb_spec d 2) as [Hd|Hd]; [|reflexivity].
  destruct Hin as [->|Hin]; [|apply IH; assumption].
  exfalso. unfold digit_val in Ed.
  destruct ((48 <=? Z.of_N (N_of_ascii c))
            && (Z.of_N (N_of_ascii c) <=? 57)) eqn:Er; [|discriminate].
  injection Ed as <-.
  assert (Hn : N_of_ascii c = 48%N \/ N_of_ascii c = 49%N) by lia.
  assert (Hc' : c = "0"%char \/ c = "1"%char).
  { destruct Hn as [Hn|Hn]; apply (f_equal ascii_of_N) in Hn;
      rewrite ascii_N_embedding in Hn; auto. }
  destruct Hc' as [->| ->]; discriminate Hc.
Qed.

Lemma str_of_int_digit (v : Z) :
  2 <= v <= 9 -> exists c, str_of_int v = [c] /\ is_bin c = false.
Proof.
  intros H.
  assert (Hv : v = 2 \/ v = 3 \/ v = 4 \/ v = 5 \/ v = 6 \/ v = 7
               \/ v = 8 \/ v = 9) by lia.
  repeat (destruct Hv as [->|Hv];
          [eexists; split; reflexivity|]).
  subst v. eexists; split; reflexivity.
Qed.

Lemma index_nth_error {A : Type} (l : list A) (i : Z) (a : A) :
  0 <= i -> nth_error l (Z.to_nat i) = Some a -> index l i = Ok a.
Proof.
  intros Hi Hn.
  assert (Hlt : (Z.to_nat i < length l)%nat)
    by (apply nth_error_Some; congruence).
  destruct (index_in_range l i ltac:(lia)) as (a' & E & N).
  congruence.
Qed.

(** X15. When the five wheels of a bank can be read and one of them shows a
    digit from 2 to 9 instead of a bit, [get_val] raises [ValueError]. *)
Theorem get_val_ValueError (b : WheelBank.t) (w0 w1 w2 w3 w4 : Wheel.t)
  (rest : list Wheel.t) (v0 v1 v2 v3 v4 : Z) :
  WheelBank.wheels b = w0 :: w1 :: w2 :: w3 :: w4 :: rest ->
  Wheel.get_val w0 = Ok v0 -> Wheel.get_val w1 = Ok v1 ->
  Wheel.get_val w2 = Ok v2 -> Wheel.get_val w3 = Ok v3 ->
  Wheel.get_val w4 = Ok v4 ->
  (exists v, In v [v0; v1; v2; v3; v4] /\ 2 <= v <= 9) ->
  WheelBank.get_val b = Raise ValueError.
Proof.
  intros Hw E0 E1 E2 E3 E4 (v & Hin & Hv).
  unfold WheelBank.get_val. rewrite Hw.
  change (range 5) with [0; 1; 2; 3; 4]. cbn [mapM].
  rewrite (index_nth_error _ 0 w0), (index_nth_error _ 1 w1),
    (index_nth_error _ 2 w2), (index_nth_error _ 3 w3),
    (index_nth_error _ 4 w4) by (reflexivity || lia).
  rewrite !bind_Ok, E0, E1, E2, E3, E4, !bind_Ok.
  destruct (str_of_int_digit v Hv) as (c & Ec & Hc).
  assert (Hbody : In c (concat (map str_of_int
                                    (reversed [v0; v1; v2; v3; v4])))).
  { apply in_concat. exists [c]. split; [|left; reflexivity].
    rewrite <- Ec. apply in_map. unfold reversed. apply in_rev.
    rewrite rev_involutive. exact Hin. }
  set (body := concat (map str_of_int (reversed [v0; v1; v2; v3; v4])))
    in *.
  change (int_of_str (lit "0b" ++ body) 2)
    with (match body with
          | [] => Raise ValueError
          | h :: t => digits_val 2 0 (h :: t)
          end).
  destruct body as [|h t] eqn:Eb; [reflexivity|].
  apply (digits_val_bad _ c); assumption.
Qed.

Lemma get_val_ValueError_witness :
  WheelBank.get_val
    (WheelBank.init [Wheel.init [0; 1] 0; Wheel.init [1] 0;
                     Wheel.init [1; 2] 1; Wheel.init [0] 0;
                     Wheel.init [1; 0] 0])
  = Raise ValueError.
Proof.
  apply (get_val_ValueError _ (Wheel.init [0; 1] 0) (Wheel.init [1] 0)
           (Wheel.init [1; 2] 1) (Wheel.init [0] 0) (Wheel.init [1; 0] 0)
           [] 0 1 2 0 1); try reflexivity.
  exists 2. split; [simpl; auto | lia].
Defined.

(** ** Wheels without teeth *)

(** X16. [advance] of a bank stops at the first wheel whose length is 0 with
    [ZeroDivisionError]: the wheels before it have advanced, that wheel
    and the wheels after it have not. *)
Theorem advance_stops_halfway (ws1 ws2 : list Wheel.t) (w : Wheel.t) :
  forallb position_ok ws1 = true ->
  Wheel.wheel_size w = 0 ->
  WheelBank.advance (WheelBank.init (ws1 ++ w :: ws2))
  = (Raise ZeroDivisionError,
     WheelBank.init (map stepped ws1 ++ w :: ws2)).
Proof.
  intros H1 Hw. unfold WheelBank.advance, WheelBank.init.
  cbn [WheelBank.wheels].
  assert (E : WheelBank.advance_each (ws1 ++ w :: ws2)
              = (Raise ZeroDivisionError, map stepped ws1 ++ w :: ws2)).
  { induction ws1 as [|a ws1 IH].
    - cbn [app map WheelBank.advance_each].
      unfold Wheel.advance, modulo. rewrite Hw. reflexivity.
    - cbn [forallb] in H1.
      apply andb_true_iff in H1; destruct H1 as [Ha H1].
      cbn [app map WheelBank.advance_each].
      rewrite Wheel_advance_ok, IH by assumption. reflexivity. }
  rewrite E. reflexivity.
Qed.

Lemma advance_stops_halfway_witness :
  forallb position_ok [Wheel.init [0; 1] 1; Wheel.init [1; 1; 0] 0] = true
  /\ Wheel.wheel_size (Wheel.init [] 0) = 0
  /\ WheelBank.advance (WheelBank.init toothless)
     = (Raise ZeroDivisionError,
        WheelBank.init
          (map stepped [Wheel.init [0; 1] 1; Wheel.init [1; 1; 0] 0]
           ++ Wheel.init [] 0 :: [Wheel.init [1] 0])).
Proof.
  split; [reflexivity|]. split; [reflexivity|].
  apply (advance_stops_halfway
           [Wheel.init [0; 1] 1; Wheel.init [1; 1; 0] 0]
           [Wheel.init [1] 0] (Wheel.init [] 0)); reflexivity.
Defined.

(** ** Key material that is too short *)

Lemma init_wheel_counts (X S : list (list Z)) (initial : list Z) :
  length (WheelBank.wheels (SFM_T52a.X_wheels (SFM_T52a.init X S initial)))
  = Nat.min (length X) (Nat.min 5 (length initial))
  /\ length (WheelBank.wheels
               (SFM_T52a.S_wheels (SFM_T52a.init X S initial)))
     = Nat.min (length S) (length initial - 5).
Proof.
  unfold SFM_T52a.init, WheelBank.init.
  cbn [SFM_T52a.X_wheels SFM_T52a.S_wheels WheelBank.wheels].
  rewrite !length_map, !length_combine.
  rewrite upto_firstn, from_skipn by lia.
  rewrite length_firstn, length_skipn.
  change (Z.to_nat 5) with 5%nat. split; reflexivity.
Qed.

(** X13. The constructor takes what it is given: with fewer than five patterns
    for a bank, or fewer than ten positions, it builds a machine all the
    same, and every [encrypt_char] and [decrypt_char] on that machine
    raises and moves no wheel. *)
Theorem short_key_material (X S : list (list Z)) (initial : list Z)
  (c : Z) :
  (length X < 5)%nat \/ (length S < 5)%nat \/ (length initial < 10)%nat ->
  (exists x, SFM_T52a.encrypt_char c (SFM_T52a.init X S initial)
             = (Raise x, SFM_T52a.init X S initial))
  /\ (exists x, SFM_T52a.decrypt_char c (SFM_T52a.init X S initial)
                = (Raise x, SFM_T52a.init X S initial)).
Proof.
  intros H. apply bank_raise_stops.
  destruct (init_wheel_counts X S initial) as [LX LS].
  assert (Hs : (length (WheelBank.wheels
                          (SFM_T52a.X_wheels (SFM_T52a.init X S initial)))
                < 5)%nat
               \/ (length (WheelBank.wheels
                             (SFM_T52a.S_wheels
                                (SFM_T52a.init X S initial))) < 5)%nat)
    by lia.
  destruct Hs as [Hs|Hs]; [left | right];
    exists IndexError; apply short_bank_raises, Hs.
Qed.

Lemma short_key_material_witness :
  ((length demo_X < 5)%nat \/ (length demo_S < 5)%nat
   \/ (length [0; 0; 0; 0; 0; 0; 0] < 10)%nat)
  /\ (exists x,
        SFM_T52a.encrypt_char 5
          (SFM_T52a.init demo_X demo_S [0; 0; 0; 0; 0; 0; 0])
        = (Raise x, SFM_T52a.init demo_X demo_S [0; 0; 0; 0; 0; 0; 0]))
  /\ (exists x,
        SFM_T52a.decrypt_char 5
          (SFM_T52a.init demo_X demo_S [0; 0; 0; 0; 0; 0; 0])
        = (Raise x, SFM_T52a.init demo_X demo_S [0; 0; 0; 0; 0; 0; 0])).
Proof.
  assert (H : (length demo_X < 5)%nat \/ (length demo_S < 5)%nat
              \/ (length [0; 0; 0; 0; 0; 0; 0] < 10)%nat)
    by (right; right; simpl; lia).
  split; [exact H|].
  apply (short_key_material demo_X demo_S [0; 0; 0; 0; 0; 0; 0] 5 H).
Defined.

(** ** Generated keys *)

Lemma keygen_shape (rs : RandomSource) :
  lawful rs ->
  exists a0 a1 a2 a3 a4 a5 a6 a7 a8 a9 x0 x1 x2 x3 x4 s0 s1 s2 s3 s4
         d0 d1 d2 d3 d4 d5 d6 d7 d8 d9,
    keygen rs
    = Ok {| X_sizes := [a9; a7; a5; a3; a1];
            S_sizes := [a8; a6; a4; a2; a0];
            X_wheels := [x0; x1; x2; x3; x4];
            S_wheels := [s0; s1; s2; s3; s4];
            indicator :=
              [d0 mod a9; d1 mod a7; d2 mod a5; d3 mod a3; d4 mod a1;
               d5 mod a8; d6 mod a6; d7 mod a4; d8 mod a2; d9 mod a0] |}
    /\ Forall (fun n => 0 < n) [a0; a1; a2; a3; a4; a5; a6; a7; a8; a9]
    /\ Forall2 pattern_of [a9; a7; a5; a3; a1] [x0; x1; x2; x3; x4]
    /\ Forall2 pattern_of [a8; a6; a4; a2; a0] [s0; s1; s2; s3; s4].
Proof.
  intros [Hsh Hbits].
  remember (shuffle rs 2 (shuffle rs 1 (shuffle rs 0 Wheel_Size)))
    as sizes eqn:Es.
  assert (Hperm : Permutation Wheel_Size sizes).
  { subst sizes. eapply perm_trans; [apply (Hsh 0%nat)|].
    eapply perm_trans; [apply (Hsh 1%nat) | apply (Hsh 2%nat)]. }
  assert (Hlen : length sizes = 10%nat)
    by (rewrite <- (Permutation_length Hperm); reflexivity).
  assert (Hpos : Forall (fun n => 0 < n) sizes).
  { eapply Permutation_Forall; [exact Hperm|].
    unfold Wheel_Size. repeat (constructor; [lia|]). constructor. }
  assert (Hsum : zsum sizes = 629)
    by (rewrite <- (zsum_permutation _ _ Hperm); reflexivity).
  destruct sizes
    as [|a0 [|a1 [|a2 [|a3 [|a4 [|a5 [|a6 [|a7 [|a8 [|a9 [|? ?]]]]]]]]]]];
    try discriminate.
  clear Hlen. pose proof Hpos as Hpos'. rewrite !Forall_cons_iff in Hpos'.
  destruct Hpos' as (P0 & P1 & P2 & P3 & P4 & P5 & P6 & P7 & P8 & P9 & _).
  unfold zsum in Hsum; cbn [fold_right] in Hsum.
  destruct (randombuf_ok _ (Hbits 700 ltac:(lia))) as [Bb Lb].
  destruct (cut_loop_X a9 a7 a5 a3 a1 (format_b 700 (getrandbits rs 700))
              [] [] [] [] [] 0 0 0 0 0 0 0 0 0 0)
    as (x0 & x1 & x2 & x3 & x4 & d0 & d1 & d2 & d3 & d4 & buf1
        & E1 & PX & DX & B1 & L1);
    [lia | lia | lia | lia | lia | exact Bb | rewrite Lb; lia |].
  destruct (cut_loop_S a8 a6 a4 a2 a0 buf1 [] [] [] [] []
              (d0 mod a9) (d1 mod a7) (d2 mod a5) (d3 mod a3) (d4 mod a1)
              0 0 0 0 0)
    as (s0 & s1 & s2 & s3 & s4 & d5 & d6 & d7 & d8 & d9 & buf2
        & E2 & PS & DS & B2 & L2);
    [lia | lia | lia | lia | lia | exact B1 | rewrite L1, Lb; lia |].
  exists a0, a1, a2, a3, a4, a5, a6, a7, a8, a9, x0, x1, x2, x3, x4,
    s0, s1, s2, s3, s4, d0, d1, d2, d3, d4, d5, d6, d7, d8, d9.
  split; [|auto].
  unfold keygen. cbv zeta. rewrite <- Es, deal_ok, bind_Ok.
  cbv beta iota. rewrite E1, bind_Ok. cbv beta iota.
  rewrite E2, bind_Ok. reflexivity.
Qed.

Lemma pattern_ok_mod (n d : Z) (w : list Z) :
  0 < n -> pattern_of n w -> pattern_ok (w, d mod n) = true.
Proof.
  intros Hn [Hl Hb]. unfold pattern_ok; cbn [fst snd].
  pose proof (Z.mod_pos_bound d n Hn). rewrite Hb, Hl.
  apply andb_true_iff; split; [apply andb_true_iff; split|];
    [reflexivity | lia | lia].
Qed.

(** X18. Every key that key generation produces is one the machine accepts:
    five patterns of bits for each bank and ten positions, each inside
    its pattern; the machine built from it is well formed. *)
Theorem keygen_key_ok (rs : RandomSource) :
  lawful rs ->
  exists km,
    keygen rs = Ok km
    /\ key_ok (X_wheels km) (S_wheels km) (indicator km) = true
    /\ engine_ok
         (SFM_T52a.init (X_wheels km) (S_wheels km) (indicator km))
       = true.
Proof.
  intros H.
  destruct (keygen_shape rs H)
    as (a0 & a1 & a2 & a3 & a4 & a5 & a6 & a7 & a8 & a9
        & x0 & x1 & x2 & x3 & x4 & s0 & s1 & s2 & s3 & s4
        & d0 & d1 & d2 & d3 & d4 & d5 & d6 & d7 & d8 & d9
        & E & Hpos & PX & PS).
  eexists. split; [exact E|].
  cbn [X_wheels S_wheels indicator].
  assert (K : key_ok [x0; x1; x2; x3; x4] [s0; s1; s2; s3; s4]
                [d0 mod a9; d1 mod a7; d2 mod a5; d3 mod a3; d4 mod a1;
                 d5 mod a8; d6 mod a6; d7 mod a4; d8 mod a2; d9 mod a0]
              = true).
  { rewrite !Forall_cons_iff in Hpos.
    destruct Hpos
      as (P0 & P1 & P2 & P3 & P4 & P5 & P6 & P7 & P8 & P9 & _).
    repeat match goal with
           | H : Forall2 _ (_ :: _) _ |- _ =>
               inversion H; subst; clear H
           end.
    unfold key_ok. cbn [length Nat.eqb andb app combine forallb].
    rewrite !pattern_ok_mod by assumption. reflexivity. }
  split; [exact K | apply init_ok, K].
Qed.

Lemma keygen_key_ok_witness :
  lawful demo_rs
  /\ exists km,
       keygen demo_rs = Ok km
       /\ key_ok (X_wheels km) (S_wheels km) (indicator km) = true
       /\ engine_ok
            (SFM_T52a.init (X_wheels km) (S_wheels km) (indicator km))
          = true.
Proof.
  split; [exact demo_rs_lawful|].
  apply (keygen_key_ok demo_rs); exact demo_rs_lawful.
Defined.

(** ** The encrypt and decrypt commands *)

Lemma first_shift_units (s : list Z) :
  forallb is_unit (snd (first_shift s)) = true.
Proof.
  destruct s as [|b t]; [reflexivity|]. cbn [first_shift].
  destruct (truthy (Z.land (entry b) ETHR_F)); [reflexivity|].
  destruct (truthy (Z.land (entry b) FIGS_F)); reflexivity.
Qed.

Lemma faithful_table_char (b : Z) :
  faithful b = true -> table_char b = [byte_char (upper b)].
Proof.
  intros H.
  assert (Hall :
    forallb (fun b =>
               implb (faithful b)
                     (match table_char b with
                      | [c] => (c =? byte_char (upper b))%char
                      | _ => false
                      end)) (range 128) = true)
    by (vm_compute; reflexivity).
  rewrite forallb_forall in Hall.
  specialize (Hall b (in_range 128 b (faithful_range b H))).
  rewrite H in Hall. cbn [implb] in Hall.
  destruct (table_char b) as [|c [|? ?]]; try discriminate.
  apply Ascii.eqb_eq in Hall. subst c. reflexivity.
Qed.

Lemma absent_table_char (b : Z) : absent b = true -> table_char b = [].
Proof. unfold absent, table_char. intros H. rewrite H. reflexivity. Qed.

Lemma table_chars_upper (s : list Z) :
  forallb (fun b => faithful b || absent b) s = true ->
  flat_map table_char s
  = map byte_char (map upper (filter (fun b => negb (absent b)) s)).
Proof.
  induction s as [|b t IH]; intros H; [reflexivity|].
  cbn [forallb] in H. apply andb_true_iff in H; destruct H as [Hb Ht].
  cbn [flat_map filter]. rewrite IH by exact Ht.
  destruct (absent b) eqn:Ea.
  - rewrite absent_table_char by exact Ea. reflexivity.
  - rewrite orb_false_r in Hb.
    rewrite faithful_table_char by exact Hb. reflexivity.
Qed.

(** X19. The [encrypt] command followed by the [decrypt] command with the same
    key, the output of the first taken as the bytes the second reads.
    For every valid key and every input, the first raises on nothing and
    writes units in [0,31], and the second gives back, for each byte, the
    character of the decode table; for letters, digits and the faithful
    punctuation that is the input with the letters upper-cased and the
    bytes absent from the mapping left out. *)
Theorem commands_roundtrip (X S : list (list Z)) (initial bytes : list Z) :
  key_ok X S initial = true ->
  exists ct,
    main_encrypt X S initial bytes = Ok ct
    /\ forallb is_unit ct = true
    /\ main_decrypt X S initial ct = Ok (flat_map table_char bytes)
    /\ (forallb (fun b => faithful b || absent b) bytes = true ->
        main_decrypt X S initial ct
        = Ok (map byte_char
                (map upper (filter (fun b => negb (absent b)) bytes)))).
Proof.
  intros Hk. pose proof (init_ok X S initial Hk) as He.
  set (us := snd (first_shift bytes)
             ++ units (fst (first_shift bytes)) bytes).
  assert (Uus : forallb is_unit us = true).
  { unfold us. rewrite forallb_app, first_shift_units.
    apply (units_units bytes). }
  destruct (stream_roundtrip us _ He Uus) as (ct & e' & E & Uct & D).
  assert (Hd : main_decrypt X S initial ct
               = Ok (flat_map table_char bytes)).
  { unfold main_decrypt. rewrite D. cbn [fst]. rewrite bind_Ok.
    unfold us.
    rewrite tty2ascii_decoded, decoded_first_shift, decoded_units_all.
    apply join_Chr. }
  exists ct. split; [|split; [exact Uct | split; [exact Hd|]]].
  - unfold main_encrypt. rewrite ascii2tty_units, bind_Ok.
    fold us. rewrite E. reflexivity.
  - intros Hf. rewrite Hd, table_chars_upper by exact Hf. reflexivity.
Qed.

Lemma commands_roundtrip_witness :
  key_ok demo_X demo_S demo_initial = true
  /\ exists ct,
       main_encrypt demo_X demo_S demo_initial [72; 105; 60; 33; 50]
       = Ok ct
       /\ forallb is_unit ct = true
       /\ main_decrypt demo_X demo_S demo_initial ct
          = Ok (flat_map table_char [72; 105; 60; 33; 50])
       /\ (forallb (fun b => faithful b || absent b)
                   [72; 105; 60; 33; 50] = true ->
           main_decrypt demo_X demo_S demo_initial ct
           = Ok (map byte_char
                   (map upper
                      (filter (fun b => negb (absent b))
                              [72; 105; 60; 33; 50])))).
Proof.
  split; [reflexivity|].
  apply (commands_roundtrip demo_X demo_S demo_initial
           [72; 105; 60; 33; 50]); reflexivity.
Defined.

Lemma enumerated2 (n m : nat) (P : Z -> Z -> bool) :
  forallb (fun a => forallb (P a) (range m)) (range n) = true ->
  forall a b,
    0 <= a < Z.of_nat n -> 0 <= b < Z.of_nat m -> P a b = true.
Proof.
  intros H a b Ha Hb. rewrite forallb_forall in H.
  specialize (H a (in_range n a Ha)). rewrite forallb_forall in H.
  apply H, in_range, Hb.
Qed.

Lemma is_byte_inv (c : Z) : is_byte c = true -> 0 <= c < 256.
Proof. unfold is_byte; intros H; apply andb_true_iff in H; lia. Qed.

Lemma swaps_dec_byte (s c : Z) :
  is_unit s = true -> is_byte c = true ->
  exists v,
    int_of_str (swaps_dec s (format_b 5 c)) 2 = Ok v /\ is_byte v = true.
Proof.
  intros Hs Hc. apply is_unit_inv in Hs. apply is_byte_inv in Hc.
  pose proof
    (enumerated2 32 256
       (fun s c =>
          match int_of_str (swaps_dec s (format_b 5 c)) 2 with
          | Ok v => is_byte v
          | Raise _ => false
          end) ltac:(vm_compute; reflexivity) s c ltac:(lia) ltac:(lia))
    as H.
  cbv beta in H.
  destruct (int_of_str (swaps_dec s (format_b 5 c)) 2) as [v|];
    [|discriminate].
  exists v; auto.
Qed.

Lemma lxor_byte (v x : Z) :
  is_byte v = true -> is_unit x = true -> is_byte (Z.lxor v x) = true.
Proof.
  intros Hv Hx. apply is_unit_inv in Hx. apply is_byte_inv in Hv.
  apply (enumerated2 256 32 (fun v x => is_byte (Z.lxor v x))
           ltac:(vm_compute; reflexivity)); lia.
Qed.

Lemma decrypt_char_byte (e : SFM_T52a.t) (c : Z) :
  engine_ok e = true -> is_byte c = true ->
  exists v,
    SFM_T52a.decrypt_char c e = (Ok v, engine_stepped e)
    /\ is_byte v = true.
Proof.
  intros He Hc.
  pose proof (SFM_advance_engine_ok e He) as Hadv.
  apply engine_ok_inv in He; destruct He as [HX HS].
  destruct (WheelBank_get_val_unit _ HX) as (x & Ex & Ux).
  destruct (WheelBank_get_val_unit _ HS) as (s & Es & Us).
  destruct (swaps_dec_byte s c Us Hc) as (v & Ev & Bv).
  exists (Z.lxor v x).
  rewrite (decrypt_char_run e _ c x s Ex Es Hadv), Ev.
  auto using lxor_byte.
Qed.

Lemma decrypt_bytes (m : list Z) (e : SFM_T52a.t) :
  engine_ok e = true -> forallb is_byte m = true ->
  exists pt e',
    SFM_T52a.decrypt m e = (Ok pt, e') /\ length pt = length m.
Proof.
  revert e; induction m as [|c m IH]; intros e He Hm.
  - exists [], e. auto.
  - cbn [forallb] in Hm. apply andb_true_iff in Hm; destruct Hm as [Hc Hm].
    destruct (decrypt_char_byte e c He Hc) as (v & Dv & Bv).
    destruct (IH (engine_stepped e) (engine_stepped_ok e He) Hm)
      as (pt & e' & Dpt & Lpt).
    exists (v :: pt), e'. cbn [SFM_T52a.decrypt]. unfold ord.
    rewrite (sbind_Ok _ _ _ _ _ Dv).
    rewrite (sbind_Ok _ _ _ (engine_stepped e) v).
    + rewrite (sbind_Ok _ _ _ _ _ Dpt). cbn [length]. rewrite Lpt. auto.
    + unfold reads, chr. apply is_byte_inv in Bv.
      destruct (Z.leb_spec 0 v); [|lia].
      destruct (Z.leb_spec v 1114111); [|lia]. reflexivity.
Qed.

(** X20. The [decrypt] command raises on no input file: with a valid key and
    whatever bytes the file holds, it returns a text, of at most one
    character for each byte. *)
Theorem decrypt_command_total (X S : list (list Z))
  (initial input_ciphertext : list Z) :
  key_ok X S initial = true ->
  forallb is_byte input_ciphertext = true ->
  exists text,
    main_decrypt X S initial input_ciphertext = Ok text
    /\ (length text <= length input_ciphertext)%nat.
Proof.
  intros Hk Hb.
  destruct (decrypt_bytes input_ciphertext _ (init_ok X S initial Hk) Hb)
    as (pt & e' & D & L).
  destruct (decoded_text pt false) as (text & E & Lt).
  exists text. unfold main_decrypt. rewrite D. cbn [fst].
  rewrite bind_Ok, tty2ascii_decoded, E, join_Chr.
  split; [reflexivity|].
  rewrite Lt, <- L. apply filter_length_le.
Qed.

Lemma decrypt_command_total_witness :
  key_ok demo_X demo_S demo_initial = true
  /\ forallb is_byte [200; 13; 97; 255; 0; 64] = true
  /\ exists text,
       main_decrypt demo_X demo_S demo_initial [200; 13; 97; 255; 0; 64]
       = Ok text
       /\ (length text <= length [200; 13; 97; 255; 0; 64])%nat.
Proof.
  split; [reflexivity|]. split; [reflexivity|].
  apply (decrypt_command_total demo_X demo_S demo_initial
           [200; 13; 97; 255; 0; 64]); reflexivity.
Defined.

(** ** The machine stays well formed *)

Lemma times_advance_ok (n : nat) (e : SFM_T52a.t) :
  engine_ok e = true ->
  engine_ok (snd (times n SFM_T52a.advance e)) = true.
Proof.
  revert e; induction n as [|n IH]; intros e He; [exact He|].
  rewrite times_advance_S by exact He.
  apply IH, engine_stepped_ok, He.
Qed.

(** X9. A well-formed machine is well formed again after a string of units
    has been encrypted or decrypted: five wheels in each bank, patterns of
    bits, every position inside its pattern. *)
Theorem stream_keeps_engine_ok (e : SFM_T52a.t) (u : list Z) :
  engine_ok e = true ->
  forallb is_unit u = true ->
  engine_ok (snd (SFM_T52a.encrypt u e)) = true
  /\ engine_ok (snd (SFM_T52a.decrypt u e)) = true.
Proof.
  intros He Hu.
  destruct (stream_run e u He Hu) as (ct & pt & E & D & _).
  rewrite E, D. cbn [snd]. split; apply times_advance_ok, He.
Qed.

Lemma stream_keeps_engine_ok_witness :
  engine_ok demo = true
  /\ forallb is_unit [1; 2; 3; 4] = true
  /\ engine_ok (snd (SFM_T52a.encrypt [1; 2; 3; 4] demo)) = true
  /\ engine_ok (snd (SFM_T52a.decrypt [1; 2; 3; 4] demo)) = true.
Proof.
  split; [reflexivity|]. split; [reflexivity|].
  apply (stream_keeps_engine_ok demo [1; 2; 3; 4]); reflexivity.
Defined.

(** ** Strings longer than five characters *)

(** X17. On a string of five characters or more, four of the swaps keep the
    length of the string; the swap taken on s-bit 3 keeps the first five
    characters only, so that an input above 31 loses its low bits there. *)
Theorem swaps_lengths (s : str) :
  (5 <= length s)%nat ->
  length (SFM_T52a.swap4 s) = length s
  /\ length (SFM_T52a.swap3 s) = 5%nat
  /\ length (SFM_T52a.swap2 s) = length s
  /\ length (SFM_T52a.swap1 s) = length s
  /\ length (SFM_T52a.swap0 s) = length s.
Proof.
  intros Hl.
  unfold SFM_T52a.swap4, SFM_T52a.swap3, SFM_T52a.swap2, SFM_T52a.swap1,
    SFM_T52a.swap0.
  repeat split; slice_lengths.
Qed.

Lemma swaps_lengths_witness :
  (5 <= length (format_b 5 100))%nat
  /\ length (SFM_T52a.swap4 (format_b 5 100)) = length (format_b 5 100)
  /\ length (SFM_T52a.swap3 (format_b 5 100)) = 5%nat
  /\ length (SFM_T52a.swap2 (format_b 5 100)) = length (format_b 5 100)
  /\ length (SFM_T52a.swap1 (format_b 5 100)) = length (format_b 5 100)
  /\ length (SFM_T52a.swap0 (format_b 5 100)) = length (format_b 5 100).
Proof.
  split; [simpl; lia|].
  apply (swaps_lengths (format_b 5 100)); simpl; lia.
Defined.
